(** * gwg: a webhook-triggered git mirror synchroniser

    A shallow embedding of [main.go]: the repository registry and its
    path lookup, the clone / update workers with their retrying fetch and
    post-reset verification, the job dispatcher with its counting permit,
    and the debounced configuration reload.

    Go strings are byte strings ([string]); Go [int] values are [Z];
    a run-time panic is [None]. *)

From Stdlib Require Import ZArith List String Ascii Bool Lia.
Import ListNotations.

Open Scope string_scope.
Open Scope Z_scope.

(** ** Data model *)

(** [plumbing.Hash]: a 20-byte object id, compared only for equality. *)
Definition Hash := N.

(** [type repo struct]. *)
Record repo := mkRepo {
  URL : string;
  Path : string;
  Directory : string;
  Label : string;
  LabelType : string;
  Remote : string;
  Secret : string;
  SSHPrivKey : string;
  SSHPassPhrase : string;
  Trigger : string;
  Busy : bool
}.

(** ** Go string primitives *)

(** [len(s)]. *)
Definition len (s : string) : Z := Z.of_nat (String.length s).

(** [s[i]]: the byte at index [i]; panics outside [0 <= i < len(s)]. *)
Definition index (s : string) (i : Z) : option ascii :=
  if (i <? 0) || (len s <=? i) then None else String.get (Z.to_nat i) s.

(** [s[:j]]: the prefix of [j] bytes; panics outside [0 <= j <= len(s)]. *)
Definition slice_to (s : string) (j : Z) : option string :=
  if (j <? 0) || (len s <? j) then None
  else Some (String.substring 0 (Z.to_nat j) s).

(** ** RepoRegistry *)

Module Registry.

(** [func cleanURL(url string) string]. *)
Definition cleanURL (url : string) : option string :=
  match index url (len url - 1) with
  | None => None
  | Some c =>
      if Ascii.eqb c "/"%char then slice_to url (len url - 1)
      else Some url
  end.

(** The [for r, repo := range c.Repos] loop of [FindRepo], from index [r]. *)
Fixpoint FindRepo_from (repos : list repo) (r : nat) (path : string)
  : option (nat * bool) :=
  match repos with
  | [] => Some (0%nat, false)
  | rp :: rest =>
      match cleanURL path with
      | None => None
      | Some p =>
          if String.eqb (Path rp) p then Some (r, true)
          else FindRepo_from rest (S r) path
      end
  end.

(** [func (c *config) FindRepo(path string) (int, bool)]. *)
Definition FindRepo (repos : list repo) (path : string) : option (nat * bool) :=
  FindRepo_from repos 0%nat path.


(** [p] followed by the byte [c]. *)
Definition snoc (p : string) (c : ascii) : string := p ++ String c "".

End Registry.

(** ** SyncWorker: Clone and Update

    The git library, the ssh key loader, the filesystem and the clock are
    external collaborators.  Each call to one of them is recorded as an
    [event] in the run's trace and answered by the [world] the run is
    placed in, so every theorem below holds for all behaviours of those
    collaborators. *)

Module Worker.

(** [time.Duration] is an [int64] count of nanoseconds. *)
Definition wrap64 (z : Z) : Z := (z + 2 ^ 63) mod 2 ^ 64 - 2 ^ 63.
Definition Second : Z := 1000000000.

Inductive level := Debug | Info | Warning | Error.

(** Calls that leave the process, in program order.  A [Log] keeps the
    level and the format string of the logrus call; its formatted arguments
    are not recorded. *)
Inductive event :=
| Log (l : level) (msg : string)
| TimeSleep (ns : Z)
| SshNewPublicKeysFromFile (user key pass : string)
| GitPlainOpen (dir : string)
| GitWorktree
| GitPlainClone (dir url ref : string)
| GitFetch (remote : string)
| GitReference (name : string)
| GitTagObject (h : Hash)
| GitReset (commit : Hash)
| OsChtimes (path : string)
| OsOpenFile (path : string)
| OsStat (path : string).

(** [object.Tag]: an annotated tag object, with its own hash and the hash of
    the object it points at. *)
Record tag := mkTag { tag_Hash : Hash; Target : Hash }.

(** The three outcomes of [repo.Fetch] that [update] tells apart. *)
Inductive fetch_err := FetchNil | NoErrAlreadyUpToDate | FetchFailed.

(** Answers of the external collaborators, and the two fields of the global
    [C] that [update] reads.  [update] makes its calls in a fixed order, so
    an answer is indexed by the call's arguments and its place in that
    order; [None] and [false] stand for a non-nil [err]. *)
Record world := mkWorld {
  RetryCount : Z;
  RetryDelay : Z;
  ssh_ok : bool;                                   (* ssh.NewPublicKeysFromFile *)
  open_ok : bool;                                  (* git.PlainOpen *)
  worktree_ok : bool;                              (* repo.Worktree *)
  clone_ok : bool;                                 (* git.PlainClone *)
  fetch : Z -> fetch_err;                          (* repo.Fetch, attempt i *)
  reference_before : string -> option Hash;        (* repo.Reference(name, true) before the reset *)
  tag_object : Hash -> option tag;                 (* repo.TagObject(h) *)
  reset_ok : Hash -> bool;                         (* w.Reset to a commit *)
  reference_after : Hash -> string -> option Hash; (* repo.Reference(name, true) after the reset to a commit *)
  chtimes_ok : bool;                               (* os.Chtimes *)
  stat_ok : bool;                                  (* os.Stat after the create *)
  busy_after_sleep : nat -> bool                   (* r.Busy as other goroutines leave it
                                                      during the k-th 3s sleep *)
}.

(** What a worker goroutine changes: the repository record it points at
    (its [Busy] field) and the trace. *)
Record state := mkState {
  self : repo;
  trace : list event
}.

Definition set_Busy (b : bool) (r : repo) : repo :=
  mkRepo (URL r) (Path r) (Directory r) (Label r) (LabelType r) (Remote r)
         (Secret r) (SSHPrivKey r) (SSHPassPhrase r) (Trigger r) b.

(** *** Control flow: statements that fall through, [return], and a wait
    that never ends *)

Inductive flow (A : Type) :=
| Next (a : A)       (* the statement completed; go on with the next one *)
| Returned           (* a [return] was executed *)
| Waiting.           (* still polling when the fuel ran out *)
Arguments Next {A} a.
Arguments Returned {A}.
Arguments Waiting {A}.

Definition M (A : Type) := state -> flow A * state.

Definition ret {A} (a : A) : M A := fun s => (Next a, s).

Definition bind {A B} (m : M A) (k : A -> M B) : M B :=
  fun s =>
    match m s with
    | (Next a, s') => k a s'
    | (Returned, s') => (Returned, s')
    | (Waiting, s') => (Waiting, s')
    end.

Declare Scope go_scope.
Delimit Scope go_scope with go.
Notation "x <- m ;; k" := (bind m (fun x => k))
  (at level 100, m at next level, right associativity) : go_scope.
Notation "m ;; k" := (bind m (fun _ => k))
  (at level 100, right associativity) : go_scope.
Open Scope go_scope.

Definition return_ {A} : M A := fun s => (Returned, s).

Definition emit (e : event) : M unit :=
  fun s => (Next tt, mkState (self s) (trace s ++ [e])).

Definition log (l : level) (msg : string) : M unit := emit (Log l msg).

Definition get_self : M repo := fun s => (Next (self s), s).
Definition assign_Busy (b : bool) : M unit :=
  fun s => (Next tt, mkState (set_Busy b (self s)) (trace s)).

(** A call of a function with no result: the callee's [return] ends the
    callee, not the caller. *)
Definition call (body : M unit) : M unit :=
  fun s =>
    match body s with
    | (Waiting, s') => (Waiting, s')
    | (_, s') => (Next tt, s')
    end.

(** [defer d] at the top of a function whose remaining statements are
    [body]: [d] runs when the function returns, by [return] or by reaching
    its end; a function that never returns never runs it. *)
Definition with_defer (d : M unit) (body : M unit) : M unit :=
  fun s =>
    match body s with
    | (Waiting, s') => (Waiting, s')
    | (_, s') => d s'
    end.

(** *** RepoSyncState *)

(** [func (r *repo) finished()]. *)
Definition finished : M unit := assign_Busy false.

(** [func (r *repo) waitForCompletion()]: [fuel] bounds the number of polls
    that find the flag set, [k] counts the sleeps so far. *)
Fixpoint waitForCompletion (w : world) (fuel : nat) (k : nat) : M unit :=
  fun s =>
    if Busy (self s) then
      match fuel with
      | O => (Waiting, s)
      | S fuel' =>
          (log Warning "Repo is in the middle of an update, waiting..." ;;
           emit (TimeSleep (3 * Second)) ;;
           assign_Busy (busy_after_sleep w k) ;;
           waitForCompletion w fuel' (S k)) s
      end
    else (Next tt, s).

Definition isEmpty (field : string) : bool := len field =? 0.

(** [func (r *repo) HasTrigger() bool]. *)
Definition HasTrigger (r : repo) : bool :=
  if isEmpty (Trigger r) then false else true.

(** [func (r *repo) touchTrigger()]. *)
Definition touchTrigger (w : world) : M unit :=
  r <- get_self ;;
  if HasTrigger r then
    emit (OsChtimes (Trigger r)) ;;
    if chtimes_ok w then log Info "Successfully updated trigger file"
    else
      log Error "Failed to update trigger file: %v, attempting to create..." ;;
      emit (OsOpenFile (Trigger r)) ;;
      emit (OsStat (Trigger r)) ;;
      (if stat_ok w then ret tt
       else log Error "Failed to create trigger file: %v") ;;
      log Info "Successfully created trigger file" ;;
      return_
  else ret tt.

(** [func (r *repo) clone()]. *)
Definition clone (w : world) (fuel : nat) : M unit :=
  with_defer finished
    (r <- get_self ;;
     waitForCompletion w fuel 0 ;;
     assign_Busy true ;;
     emit (SshNewPublicKeysFromFile "git" (SSHPrivKey r) (SSHPassPhrase r)) ;;
     (if ssh_ok w then ret tt
      else log Error "Failed to setup ssh auth: %v" ;; return_) ;;
     let ref := if String.eqb (LabelType r) "tag"
                then "refs/tags/" ++ Label r
                else "refs/heads/" ++ Label r in
     log Debug "Clone reference: %v" ;;
     emit (GitPlainClone (Directory r) (URL r) ref) ;;
     (if clone_ok w then ret tt
      else log Error "Failed to clone repository: %v" ;; return_) ;;
     log Info "Cloned repository" ;;
     call (touchTrigger w)).

(** [repo.Fetch(...)], attempt [i]. *)
Definition do_fetch (w : world) (r : repo) (i : Z) : M fetch_err :=
  emit (GitFetch (Remote r)) ;;
  ret (fetch w i).

(** The loop [for i := 0; i < C.RetryCount; i++] of [update], entered with
    loop variable [i] and [n = C.RetryCount - i] iterations left.  It
    completes with [Next] both after a [break] and when [i] reaches
    [C.RetryCount]. *)
Fixpoint fetch_loop (w : world) (r : repo) (n : nat) (i : Z) : M unit :=
  match n with
  | O => ret tt
  | S n' =>
      log Info "Fetch attempt: " ;;
      err <- do_fetch w r i ;;
      match err with
      | FetchNil => ret tt
      | NoErrAlreadyUpToDate => log Info "No new commits" ;; return_
      | FetchFailed =>
          log Error "Failed to fetch updates: %v" ;;
          emit (TimeSleep (wrap64 (RetryDelay w * Second))) ;;
          fetch_loop w r n' (i + 1)
      end
  end.

(** [repo.Reference(plumbing.ReferenceName(name), true)], and the [Hash()]
    of its result. *)
Definition reference (answer : string -> option Hash) (name : string)
  : M (option Hash) :=
  emit (GitReference name) ;;
  ret (answer name).

(** [repo.TagObject(h)]. *)
Definition tagObject (w : world) (h : Hash) : M (option tag) :=
  emit (GitTagObject h) ;;
  ret (tag_object w h).

(** [w.Reset(&git.ResetOptions{Mode: git.HardReset, Commit: commit})];
    the result is [err == nil]. *)
Definition do_reset (w : world) (commit : Hash) : M bool :=
  emit (GitReset commit) ;;
  ret (reset_ok w commit).

(** The reference [update] resolves ([var ref string] and the [if] that
    assigns it). *)
Definition tracked_ref (r : repo) : string :=
  if String.eqb (LabelType r) "tag"
  then "refs/tags/" ++ Label r
  else "refs/remotes/" ++ Remote r ++ "/" ++ Label r.

(** [func (r *repo) update()]. *)
Definition update (w : world) (fuel : nat) : M unit :=
  with_defer finished
    (r <- get_self ;;
     waitForCompletion w fuel 0 ;;
     assign_Busy true ;;
     emit (SshNewPublicKeysFromFile "git" (SSHPrivKey r) (SSHPassPhrase r)) ;;
     (if ssh_ok w then ret tt
      else log Error "Failed to setup ssh auth: %v" ;; return_) ;;
     emit (GitPlainOpen (Directory r)) ;;
     (if open_ok w then ret tt
      else log Error "Failed to open local git repository: %v" ;; return_) ;;
     emit GitWorktree ;;
     (if worktree_ok w then ret tt
      else log Error "Failed to open work tree for repository: %v" ;; return_) ;;
     fetch_loop w r (Z.to_nat (RetryCount w)) 0 ;;
     log Info "Fetched new updates" ;;
     let ref := tracked_ref r in
     remoteRef <- reference (reference_before w) ref ;;
     match remoteRef with
     | None => log Error "Failed to get reference for %s: %v" ;; return_
     | Some remoteHash =>
         atag <- tagObject w remoteHash ;;
         targetHash <-
           match atag with
           | Some t =>
               log Info "Annotated tag hash: %v" ;;
               log Info "Annotated tag target hash: %v" ;;
               ret (Target t)
           | None => ret remoteHash
           end ;;
         localRef <- reference (reference_before w) "HEAD" ;;
         match localRef with
         | None => log Error "Failed to get local reference for HEAD: %v" ;; return_
         | Some localHash =>
             (if N.eqb remoteHash localHash
              then log Warning "Already up to date" ;; return_
              else ret tt) ;;
             ok <- do_reset w targetHash ;;
             (if ok then ret tt
              else log Error "Failed to hard reset work tree: %v" ;; return_) ;;
             log Info "Hard reset successful, confirming changes...." ;;
             headRef <- reference (reference_after w targetHash) "HEAD" ;;
             match headRef with
             | None => log Error "Failed to get local HEAD reference: %v" ;; return_
             | Some headHash =>
                 (if N.eqb headHash targetHash
                  then log Info "Changes confirmed, latest hash: %v"
                  else
                    log Error "Something went wrong, hashes don't match!" ;;
                    log Debug "Remote hash: %v" ;;
                    log Debug "Local hash:  %v" ;;
                    return_) ;;
                 call (touchTrigger w)
             end
         end
     end).

(** *** Reading a trace *)

Definition is_fetch (e : event) : bool :=
  match e with GitFetch _ => true | _ => false end.
Definition is_reference (e : event) : bool :=
  match e with GitReference _ | GitTagObject _ => true | _ => false end.
Definition is_reset (e : event) : bool :=
  match e with GitReset _ => true | _ => false end.
Definition is_touch (e : event) : bool :=
  match e with OsChtimes _ | OsOpenFile _ => true | _ => false end.

Definition count (p : event -> bool) (evs : list event) : nat :=
  List.length (filter p evs).

(** The flag as the [k]-th check of [waitForCompletion] reads it. *)
Definition flag_at (w : world) (s : state) (k : nat) : bool :=
  match k with
  | O => Busy (self s)
  | S j => busy_after_sleep w j
  end.

(** Some check within [fuel] sleeps finds the flag clear. *)
Definition wait_ends (w : world) (fuel : nat) (s : state) : Prop :=
  exists k, (k <= fuel)%nat /\ flag_at w s k = false.

(** A statement that cannot be left polling. *)
Definition never_waits {A} (m : M A) : Prop :=
  forall s, fst (m s) <> Waiting.

(** Events that are no git fetch, reference read, reset or trigger touch. *)
Definition quiet (e : event) : bool :=
  negb (is_fetch e || is_reference e || is_reset e || is_touch e).

(** The events of one failed fetch attempt, and of [k] of them in a row. *)
Definition failed_attempt (w : world) (r : repo) : list event :=
  [Log Info "Fetch attempt: "; GitFetch (Remote r);
   Log Error "Failed to fetch updates: %v";
   TimeSleep (wrap64 (RetryDelay w * Second))].

Fixpoint failed_attempts (w : world) (r : repo) (k : nat) : list event :=
  match k with
  | O => []
  | S k' => failed_attempt w r ++ failed_attempts w r k'
  end.

(** The fetch loop is left for the statements after it once [k] attempts
    have failed: by the [break] of a successful attempt [k], or because [k]
    is [C.RetryCount]. *)
Definition fetch_passes (w : world) (k : nat) : Prop :=
  (forall i, (i < k)%nat -> fetch w (Z.of_nat i) = FetchFailed) /\
  (((k < Z.to_nat (RetryCount w))%nat /\ fetch w (Z.of_nat k) = FetchNil) \/
   k = Z.to_nat (RetryCount w)).

(** [targetHash] as [update] has it after the annotated-tag test, for a
    reference that resolved to [h]. *)
Definition target_hash (w : world) (h : Hash) : Hash :=
  match tag_object w h with
  | Some t => Target t
  | None => h
  end.

(** The events of the statements of [update] before the fetch loop, when
    none of them fails. *)
Definition opening (r : repo) : list event :=
  [SshNewPublicKeysFromFile "git" (SSHPrivKey r) (SSHPassPhrase r);
   GitPlainOpen (Directory r); GitWorktree].

(** The events of the fetch loop when it is left that way. *)
Definition passing_fetches (w : world) (r : repo) (k : nat) : list event :=
  failed_attempts w r k ++
  (if (k <? Z.to_nat (RetryCount w))%nat
   then [Log Info "Fetch attempt: "; GitFetch (Remote r)] else []).

(** The events of [update] from its first statement to the comparison of
    the resolved hash [h] with the local HEAD, when nothing fails and the
    fetch loop is left after [k] failed attempts. *)
Definition before_reset (w : world) (r : repo) (k : nat) (h : Hash) : list event :=
  opening r ++
  passing_fetches w r k ++
  [Log Info "Fetched new updates"; GitReference (tracked_ref r); GitTagObject h] ++
  match tag_object w h with
  | Some _ => [Log Info "Annotated tag hash: %v";
               Log Info "Annotated tag target hash: %v"]
  | None => []
  end ++
  [GitReference "HEAD"].

End Worker.

(** ** Webhook-to-job translation *)

Module Webhook.

(** [strings.TrimPrefix(s, prefix)]. *)
Definition TrimPrefix (s prefix : string) : string :=
  if String.prefix prefix s
  then String.substring (String.length prefix)
                        (String.length s - String.length prefix) s
  else s.





End Webhook.

(** ** Dispatcher and worker goroutines, interleaved

    The goroutines of [process] share the permit channel [sem] and the
    [Busy] fields of the repository records.  A goroutine is a program
    counter over the statements of [process], [waitForCompletion] and
    [clone] / [update] that touch this shared state; a schedule picks which
    goroutine executes its next statement. *)

Module Engine.

Inductive pc :=
| AtAcquire     (* process: sem <- struct{}{} *)
| AtCheck       (* waitForCompletion: if r.Busy *)
| AtSleep       (* waitForCompletion: time.Sleep(3 * time.Second) *)
| AtAssign      (* clone / update: r.Busy = true *)
| InWork        (* clone / update: ssh auth, git calls, touchTrigger *)
| AtFinished    (* clone / update: the deferred r.finished() *)
| AtRelease     (* process: <-sem *)
| Done.

(** [type job struct]: [job_repo] is the address of a repository record. *)
Record job := mkJob { job_repo : nat; jobType : string }.

Record goroutine := mkGoroutine { its_job : job; at_pc : pc }.

Record state := mkState {
  heap : list bool;        (* the Busy field of every repository record allocated so far *)
  C_Repos : list nat;      (* addresses of the records of the active C.Repos *)
  C_Threads : Z;           (* C.Threads *)
  passer_threads : Z;      (* passer.threads *)
  sem_cap : Z;             (* cap(sem), fixed by make(chan struct{}, threads) *)
  sem_len : Z;             (* len(sem): permits held *)
  jobs : list job;         (* the jobs channel, capacity 100 *)
  gs : list goroutine
}.

Definition read (h : list bool) (a : nat) : bool := nth a h false.

Fixpoint write (h : list bool) (a : nat) (b : bool) : list bool :=
  match h, a with
  | [], _ => []
  | _ :: t, O => b :: t
  | x :: t, S a' => x :: write t a' b
  end.

Fixpoint replace_goroutine (l : list goroutine) (i : nat) (g : goroutine)
  : list goroutine :=
  match l, i with
  | [], _ => []
  | _ :: t, O => g :: t
  | x :: t, S i' => x :: replace_goroutine t i' g
  end.

(** [main]: [passer.threads] and [C.Threads] agree after [C.refreshTasks()],
    and [go process(passer.jobs, passer.threads)] creates [sem] with that
    capacity; [make] panics on a negative one. *)
Definition boot (threads : Z) (nrepos : nat) : option state :=
  if threads <? 0 then None
  else Some (mkState (repeat false nrepos) (seq 0 nrepos)
                     threads threads threads 0 [] []).

(** One statement of a goroutine; [None] when it is blocked or finished. *)
Definition step_goroutine (s : state) (i : nat) : option state :=
  match nth_error (gs s) i with
  | None => None
  | Some g =>
      let a := job_repo (its_job g) in
      let goto (p : pc) (h : list bool) (n : Z) :=
        Some (mkState h (C_Repos s) (C_Threads s) (passer_threads s)
                      (sem_cap s) n (jobs s)
                      (replace_goroutine (gs s) i (mkGoroutine (its_job g) p))) in
      match at_pc g with
      | AtAcquire =>
          if sem_len s <? sem_cap s then
            if String.eqb (jobType (its_job g)) "clone"
               || String.eqb (jobType (its_job g)) "update"
            then goto AtCheck (heap s) (sem_len s + 1)
            else goto AtRelease (heap s) (sem_len s + 1)
          else None
      | AtCheck =>
          if read (heap s) a then goto AtSleep (heap s) (sem_len s)
          else goto AtAssign (heap s) (sem_len s)
      | AtSleep => goto AtCheck (heap s) (sem_len s)
      | AtAssign => goto InWork (write (heap s) a true) (sem_len s)
      | InWork => goto AtFinished (heap s) (sem_len s)
      | AtFinished => goto AtRelease (write (heap s) a false) (sem_len s)
      | AtRelease => goto Done (heap s) (sem_len s - 1)
      | Done => None
      end
  end.

Inductive label :=
| Push (idx : nat)                         (* handleFunc: p.jobs <- &job{&C.Repos[idx], "update"} *)
| InitialClone (idx : nat)                 (* initialClone: jobs <- &job{&c.Repos[idx], "clone"} *)
| Dispatch                                 (* process: j := <-jobs; go func() {...}() *)
| Run (i : nat)                            (* goroutine i executes its next statement *)
| ConfigChange (threads : Z) (nrepos : nat). (* OnConfigChange with a file of nrepos repos *)

Definition enqueue (s : state) (idx : nat) (kind : string) : option state :=
  match nth_error (C_Repos s) idx with
  | None => None
  | Some a =>
      if (100 <=? List.length (jobs s))%nat then None
      else Some (mkState (heap s) (C_Repos s) (C_Threads s) (passer_threads s)
                         (sem_cap s) (sem_len s)
                         (jobs s ++ [mkJob a kind]) (gs s))
  end.

(** The reload as the dispatcher sees it: [refreshTasks] stores the new
    limit in [passer.threads]; once no record of the active [C.Repos] is
    busy, [C = newC] installs freshly unmarshalled records.  [sem] is a
    local of [process] and is not touched. *)
Definition config_change (s : state) (threads : Z) (nrepos : nat) : option state :=
  if existsb (read (heap s)) (C_Repos s) then None
  else Some (mkState (heap s ++ repeat false nrepos)
                     (seq (List.length (heap s)) nrepos)
                     threads threads
                     (sem_cap s) (sem_len s) (jobs s) (gs s)).

Definition step (s : state) (l : label) : option state :=
  match l with
  | Push idx => enqueue s idx "update"
  | InitialClone idx => enqueue s idx "clone"
  | Dispatch =>
      match jobs s with
      | [] => None
      | j :: rest =>
          Some (mkState (heap s) (C_Repos s) (C_Threads s) (passer_threads s)
                        (sem_cap s) (sem_len s) rest
                        (gs s ++ [mkGoroutine j AtAcquire]))
      end
  | Run i => step_goroutine s i
  | ConfigChange threads nrepos => config_change s threads nrepos
  end.

Fixpoint run (s : state) (ls : list label) : option state :=
  match ls with
  | [] => Some s
  | l :: rest =>
      match step s l with
      | None => None
      | Some s' => run s' rest
      end
  end.

(** [main] followed by a schedule. *)
Definition launch (threads : Z) (nrepos : nat) (ls : list label) : option state :=
  match boot threads nrepos with
  | None => None
  | Some s => run s ls
  end.

(** A goroutine holds a permit from its send on [sem] to its receive. *)
Definition holds_permit (g : goroutine) : bool :=
  match at_pc g with
  | AtAcquire | Done => false
  | _ => true
  end.

(** A goroutine is executing its clone / update on record [a]: it has set
    the flag and has not yet run the deferred [finished]. *)
Definition executing (a : nat) (g : goroutine) : bool :=
  Nat.eqb (job_repo (its_job g)) a &&
  match at_pc g with
  | InWork | AtFinished => true
  | _ => false
  end.

Definition running (s : state) : Z :=
  Z.of_nat (List.length (filter holds_permit (gs s))).

Definition executing_on (s : state) (a : nat) : nat :=
  List.length (filter (executing a) (gs s)).

(** Every permit queued in [sem] is held by one goroutine, and [sem] is not
    over its capacity. *)
Definition permits_ok (s : state) : Prop :=
  running s = sem_len s /\ sem_len s <= sem_cap s.

End Engine.

(** ** ConfigCoordinator: the [OnConfigChange] callback

    Time is the reading of the clock in nanoseconds.  The callbacks run one
    after another on the watcher goroutine. *)

Module Reload.

(** The fields of [type config struct] the reload reads or writes. *)
Record config := mkConfig {
  Threads : Z;
  LastUpdate : Z;
  Repos : list repo
}.

Record state := mkState {
  C : config;              (* the global C *)
  mutex : bool;            (* the global mutex is locked *)
  passer_threads : Z;      (* passer.threads *)
  installs : nat           (* how often [C = newC] has run *)
}.

Inductive outcome :=
| Installed        (* C = newC; mutex.Unlock() *)
| Debounced        (* the early return *)
| BlockedOnLock    (* mutex.Lock() never returns *)
| Fatal            (* log.Fatalf: the process exits *)
| Polling.         (* still waiting for the repositories when the fuel ran out *)

(** [time.Duration] saturates at the [int64] bounds. *)
Definition saturate64 (z : Z) : Z := Z.max (- 2 ^ 63) (Z.min (2 ^ 63 - 1) z).

(** [time.Since(t).Nanoseconds()] read at clock value [now]. *)
Definition Since (now t : Z) : Z := saturate64 (now - t).

(** [func (c *config) setRepoDefaults()], one record. *)
Definition setRepoDefault (r : repo) : repo :=
  let lt := if String.eqb (LabelType r) "" then "branch" else LabelType r in
  let lb := if String.eqb (Label r) "" then "master" else Label r in
  let rm := if String.eqb (Remote r) "" then "origin" else Remote r in
  mkRepo (URL r) (Path r) (Directory r) lb lt rm (Secret r)
         (SSHPrivKey r) (SSHPassPhrase r) (Trigger r) (Busy r).

(** [func (c *config) refreshTasks()] at clock value [now]: the new
    configuration and the value stored in [passer.threads]. *)
Definition refreshTasks (now : Z) (c : config) : config * Z :=
  (mkConfig (Threads c) now (map setRepoDefault (Repos c)), Threads c).

(** The loop that waits for the repositories: [repos_at k] is [C.Repos] as
    the workers have left it at poll [k].  The result is the number of 5s
    sleeps, [None] when the fuel ran out. *)
Fixpoint wait_idle (repos_at : nat -> list repo) (fuel k : nat) : option nat :=
  if existsb Busy (repos_at k) then
    match fuel with
    | O => None
    | S fuel' => wait_idle repos_at fuel' (S k)
    end
  else Some k.

(** One file-change notification. *)
Record notification := mkNotification {
  now : Z;                          (* the clock when the callback runs *)
  unmarshal : option config;        (* viper.Unmarshal(&newC); None: an error *)
  repos_at : nat -> list repo       (* C.Repos at each poll of the wait loop *)
}.

(** The function passed to [viper.OnConfigChange]. *)
Definition OnConfigChange (fuel : nat) (e : notification) (s : state)
  : outcome * state :=
  if mutex s then (BlockedOnLock, s)
  else
    let locked := mkState (C s) true (passer_threads s) (installs s) in
    if Since (now e) (LastUpdate (C s)) <? 250229410 then (Debounced, locked)
    else
      match unmarshal e with
      | None => (Fatal, locked)
      | Some newC0 =>
          let (newC, threads) := refreshTasks (now e) newC0 in
          let refreshed := mkState (C s) true threads (installs s) in
          match wait_idle (repos_at e) fuel 0 with
          | None => (Polling, refreshed)
          | Some _ => (Installed, mkState newC false threads (S (installs s)))
          end
      end.

(** The callbacks of a sequence of notifications, in order.  A callback
    that does not return (blocked, polling for ever) or that exits the
    process leaves the later ones unserved. *)
Fixpoint deliver (fuel : nat) (es : list notification) (s : state)
  : list outcome * state :=
  match es with
  | [] => ([], s)
  | e :: rest =>
      match OnConfigChange fuel e s with
      | (Installed, s') =>
          let (os, s'') := deliver fuel rest s' in (Installed :: os, s'')
      | (Debounced, s') =>
          let (os, s'') := deliver fuel rest s' in (Debounced :: os, s'')
      | (o, s') => ([o], s')
      end
  end.

End Reload.

(** ** Configuration helpers and startup *)

Module Config.

(** [strings.HasSuffix(s, suffix)]. *)
Definition HasSuffix (s suffix : string) : bool :=
  (String.length suffix <=? String.length s)%nat &&
  String.eqb (String.substring (String.length s - String.length suffix)
                               (String.length suffix) s)
             suffix.

(** [strings.TrimSuffix(s, suffix)]. *)
Definition TrimSuffix (s suffix : string) : string :=
  if HasSuffix s suffix
  then String.substring 0 (String.length s - String.length suffix) s
  else s.

(** [func (r *repo) Name() string]. *)
Definition Name (r : repo) : string :=
  TrimSuffix (Webhook.TrimPrefix (URL r) "git@github.com:") ".git".

(** The loop of [validatePathsUniq]: [paths] holds the keys of the map
    [paths] so far; the result lists the path of every [log.Errorf] call,
    in order. *)
Fixpoint validatePathsUniq_from (paths : list string) (repos : list repo)
  : list string :=
  match repos with
  | [] => []
  | r :: rest =>
      (if existsb (String.eqb (Path r)) paths then [Path r] else [])
        ++ validatePathsUniq_from (Path r :: paths) rest
  end.

(** [func (c *config) validatePathsUniq()]. *)
Definition validatePathsUniq (repos : list repo) : list string :=
  validatePathsUniq_from [] repos.

(** The loop of [initialClone] from index [idx]: [stat_ok dir] is
    [os.Stat(dir)] returning no error.  The result lists the jobs sent on
    the channel, as index into [c.Repos] and job type. *)
Fixpoint initialClone_from (stat_ok : string -> bool) (repos : list repo)
                           (idx : nat) : list (nat * string) :=
  match repos with
  | [] => []
  | r :: rest =>
      (if stat_ok (Directory r) then [] else [(idx, "clone")])
        ++ initialClone_from stat_ok rest (S idx)
  end.

(** [func (c *config) initialClone()]. *)
Definition initialClone (Initialise : bool) (stat_ok : string -> bool)
                        (repos : list repo) : list (nat * string) :=
  if Initialise then initialClone_from stat_ok repos 0 else [].

(** Notifications whose callbacks run at least the debounce window after
    the update before them, starting from the update at clock [t]. *)
Fixpoint spaced (t : Z) (es : list Reload.notification) : Prop :=
  match es with
  | [] => True
  | e :: rest => 250229410 <= Reload.now e - t /\ spaced (Reload.now e) rest
  end.

(** A notification with a readable file that finds no repository busy at
    its first poll. *)
Definition ready (e : Reload.notification) : Prop :=
  Reload.unmarshal e <> None /\ existsb Busy (Reload.repos_at e 0) = false.

End Config.

(** ** Reading runs of the workers *)

Module Runs.
Import Worker.

(** The events and the outcome of a run on record [r] from an empty
    trace. *)
Definition events_of (m : M unit) (r : repo) : list event :=
  trace (snd (m (mkState r []))).

Definition outcome_of (m : M unit) (r : repo) : flow unit :=
  fst (m (mkState r [])).

(** Log lines and sleeps. *)
Definition idle (e : event) : bool :=
  match e with
  | Log _ _ | TimeSleep _ => true
  | _ => false
  end.

Definition is_clone (e : event) : bool :=
  match e with GitPlainClone _ _ _ => true | _ => false end.

Definition is_ssh (e : event) : bool :=
  match e with SshNewPublicKeysFromFile _ _ _ => true | _ => false end.

(** Log lines, sleeps and fetches: what the fetch loop does. *)
Definition fetch_phase (e : event) : bool := idle e || is_fetch e.

(** The events of [k] polls of [waitForCompletion] that find the flag
    set. *)
Fixpoint waits (k : nat) : list event :=
  match k with
  | O => []
  | S k' =>
      [Log Warning "Repo is in the middle of an update, waiting...";
       TimeSleep (3 * Second)] ++ waits k'
  end.

(** The flag as the [j]-th check of a wait that has already slept [k0]
    times reads it. *)
Definition flag_from (w : world) (k0 : nat) (s : state) (j : nat) : bool :=
  match j with
  | O => Busy (self s)
  | S j' => busy_after_sleep w (k0 + j')
  end.

(** The reference name [clone] checks out. *)
Definition clone_ref (r : repo) : string :=
  if String.eqb (LabelType r) "tag"
  then "refs/tags/" ++ Label r
  else "refs/heads/" ++ Label r.

End Runs.

(** ** Reading states of the dispatcher *)

Module Invariants.
Import Engine.

(** No permit exists, no goroutine is past its send on [sem], and no flag
    is set. *)
Definition parked (s : state) : Prop :=
  sem_cap s = 0 /\ sem_len s = 0 /\
  Forall (fun g => at_pc g = AtAcquire) (gs s) /\
  Forall (fun b => b = false) (heap s).

(** Every set flag has a goroutine inside its clone or update of that
    record. *)
Definition busy_has_worker (s : state) : Prop :=
  forall a, read (heap s) a = true ->
            exists g, In g (gs s) /\ executing a g = true.

(** The jobs in the order they left the channel, followed by the jobs
    still in it. *)
Definition in_order (s : state) : list job :=
  (map its_job (gs s) ++ jobs s)%list.

End Invariants.

(** ** Sample configurations *)

Module Samples.

(** A repository tracking the branch [master] of remote [origin]. *)
Definition site : repo :=
  mkRepo "git@github.com:acme/site.git" "/site" "/srv/site" "master" "branch"
         "origin" "s3cret" "/etc/gwg/id_rsa" "" "/srv/site.trigger" false.

(** A repository tracking the tag [v1]. *)
Definition docs : repo :=
  mkRepo "git@github.com:acme/docs.git" "/docs" "/srv/docs" "v1" "tag"
         "origin" "s3cret" "/etc/gwg/id_rsa" "" "/srv/docs.trigger" false.


(** References given by a table. *)
Definition answers (table : list (string * Hash)) (name : string) : option Hash :=
  option_map snd (find (fun p => String.eqb (fst p) name) table).

(** After a reset to [c] that worked, HEAD is [c]. *)
Definition head_at (c : Hash) (name : string) : option Hash :=
  if String.eqb name "HEAD" then Some c else None.

(** The remote cannot be reached: both of the two configured attempts
    fail.  The remote-tracking branch is at commit 7, the work tree at 9. *)
Definition unreachable_remote : Worker.world :=
  Worker.mkWorld 2 10 true true true true
    (fun _ => Worker.FetchFailed)
    (answers [("refs/remotes/origin/master", 7%N); ("HEAD", 9%N)])
    (fun _ => None) (fun _ => true) head_at true true (fun _ => false).

(** The tag [v1] is the annotated tag object 7, whose target is commit 9,
    and the work tree is already at commit 9. *)
Definition at_tagged_commit : Worker.world :=
  Worker.mkWorld 1 10 true true true true
    (fun _ => Worker.FetchNil)
    (answers [("refs/tags/v1", 7%N); ("HEAD", 9%N)])
    (fun h => if N.eqb h 7%N then Some (Worker.mkTag 7%N 9%N) else None)
    (fun _ => true) head_at true true (fun _ => false).

(** As [at_tagged_commit], with the work tree at the older commit 5. *)
Definition behind_tag : Worker.world :=
  Worker.mkWorld 1 10 true true true true
    (fun _ => Worker.FetchNil)
    (answers [("refs/tags/v1", 7%N); ("HEAD", 5%N)])
    (fun h => if N.eqb h 7%N then Some (Worker.mkTag 7%N 9%N) else None)
    (fun _ => true) head_at true true (fun _ => false).

(** The first attempt fails and the second finds nothing new. *)
Definition nothing_new_on_retry : Worker.world :=
  Worker.mkWorld 3 10 true true true true
    (fun i => if i =? 0 then Worker.FetchFailed else Worker.NoErrAlreadyUpToDate)
    (answers [("refs/remotes/origin/master", 7%N); ("HEAD", 9%N)])
    (fun _ => None) (fun _ => true) head_at true true (fun _ => false).

(** The reset reports success but leaves HEAD at commit 9. *)
Definition reset_without_effect : Worker.world :=
  Worker.mkWorld 1 10 true true true true
    (fun _ => Worker.FetchNil)
    (answers [("refs/remotes/origin/master", 7%N); ("HEAD", 9%N)])
    (fun _ => None) (fun _ => true) (fun _ => head_at 9%N)
    true true (fun _ => false).

(** The ssh key cannot be loaded; the record is released by its holder
    during the first sleep. *)
Definition no_ssh_key : Worker.world :=
  Worker.mkWorld 1 10 false true true true
    (fun _ => Worker.FetchNil) (fun _ => None)
    (fun _ => None) (fun _ => true) head_at true true (fun _ => false).

(** [site] while another goroutine updates it. *)
Definition site_in_use : Worker.state :=
  Worker.mkState (Worker.set_Busy true site) [].

(** Two pushes for the one configured repository, both dispatched, with the
    statements of the two goroutines taken in turn. *)
Definition two_pushes_in_turn : list Engine.label :=
  [Engine.Push 0; Engine.Push 0; Engine.Dispatch; Engine.Dispatch;
   Engine.Run 0; Engine.Run 1;      (* both acquire a permit *)
   Engine.Run 0; Engine.Run 1;      (* both find r.Busy false *)
   Engine.Run 0; Engine.Run 1]%nat. (* both set r.Busy and start working *)

(** A reload lowers [threads] to 1 while nothing runs; then one push for
    each of the two repositories is dispatched and both goroutines send on
    [sem]. *)
Definition lower_threads_then_two_pushes : list Engine.label :=
  [Engine.ConfigChange 1 2;
   Engine.Push 0; Engine.Push 1; Engine.Dispatch; Engine.Dispatch;
   Engine.Run 0; Engine.Run 1]%nat.

(** The configuration file as read at each notification. *)
Definition file : Reload.config := Reload.mkConfig 5 0 [site].

(** A notification whose callback runs at [t] ns, with no repository
    busy. *)
Definition change_at (t : Z) : Reload.notification :=
  Reload.mkNotification t (Some file) (fun _ => [site]).

(** The state after startup at clock 0. *)
Definition started : Reload.state :=
  Reload.mkState (fst (Reload.refreshTasks 0 file)) false 5 0.

(** Three changes of the file: at 1s, 100ms later, and at 10s. *)
Definition three_changes : list Reload.notification :=
  [change_at 1000000000; change_at 1100000000; change_at 10000000000].

End Samples.

(** ** Further sample inputs *)

Module Scenarios.


(** Only the checkout of the site repository exists. *)
Definition only_site_cloned (dir : string) : bool := String.eqb dir "/srv/site".

(** Nothing fails; the remote branch is at commit 7, the work tree at
    commit 9; the other holder of the record never lets go. *)
Definition held_forever : Worker.world :=
  Worker.mkWorld 1 10 true true true true
    (fun _ => Worker.FetchNil)
    (Samples.answers [("refs/remotes/origin/master", 7%N); ("HEAD", 9%N)])
    (fun _ => None) (fun _ => true) Samples.head_at true true (fun _ => true).

(** As [held_forever], with the record released during the third sleep. *)
Definition released_in_third_sleep : Worker.world :=
  Worker.mkWorld 1 10 true true true true
    (fun _ => Worker.FetchNil)
    (Samples.answers [("refs/remotes/origin/master", 7%N); ("HEAD", 9%N)])
    (fun _ => None) (fun _ => true) Samples.head_at true true
    (fun k => (k <? 2)%nat).

(** Nothing fails and the work tree is behind the remote branch. *)
Definition behind_branch : Worker.world :=
  Worker.mkWorld 1 10 true true true true
    (fun _ => Worker.FetchNil)
    (Samples.answers [("refs/remotes/origin/master", 7%N); ("HEAD", 9%N)])
    (fun _ => None) (fun _ => true) Samples.head_at true true (fun _ => false).

(** Nothing fails and the work tree is at the remote branch. *)
Definition level_with_branch : Worker.world :=
  Worker.mkWorld 1 10 true true true true
    (fun _ => Worker.FetchNil)
    (Samples.answers [("refs/remotes/origin/master", 7%N); ("HEAD", 7%N)])
    (fun _ => None) (fun _ => true) Samples.head_at true true (fun _ => false).

(** As [behind_branch], with [retry_count] set to 0. *)
Definition no_attempts : Worker.world :=
  Worker.mkWorld 0 10 true true true true
    (fun _ => Worker.FetchNil)
    (Samples.answers [("refs/remotes/origin/master", 7%N); ("HEAD", 9%N)])
    (fun _ => None) (fun _ => true) Samples.head_at true true (fun _ => false).

(** Two changes of the file, at 1s and at 2s, with no repository busy. *)
Definition two_spaced_changes : list Reload.notification :=
  [Samples.change_at 1000000000; Samples.change_at 2000000000].

(** A change whose callback finds the site repository busy at its first
    two polls. *)
Definition change_while_busy : Reload.notification :=
  Reload.mkNotification 1000000000 (Some Samples.file)
    (fun k => if (k <? 2)%nat then [Worker.set_Busy true Samples.site]
              else [Samples.site]).

(** One push, dispatched and run to its end. *)
Definition one_push_to_the_end : list Engine.label :=
  [Engine.Push 0; Engine.Dispatch;
   Engine.Run 0; Engine.Run 0; Engine.Run 0; Engine.Run 0; Engine.Run 0;
   Engine.Run 0]%nat.

(** Two pushes, both dispatched, the first goroutine run up to its work. *)
Definition first_push_working : list Engine.label :=
  [Engine.Push 0; Engine.Push 0; Engine.Dispatch; Engine.Dispatch;
   Engine.Run 0; Engine.Run 0; Engine.Run 0]%nat.

End Scenarios.

(** * Properties *)

(** ** RepoRegistry: path cleaning and lookup *)

Module RegistryFacts.
Import Registry.

Lemma snoc_cases (s : string) : s = "" \/ exists p c, s = snoc p c.
Proof.
  induction s as [|a s IH]; [now left|right].
  destruct IH as [->|(p & c & ->)].
  - now exists "", a.
  - now exists (String a p), c.
Qed.

Lemma length_snoc (p : string) (c : ascii) :
  String.length (snoc p c) = S (String.length p).
Proof. unfold snoc. induction p as [|a p IH]; simpl; [reflexivity|now rewrite IH]. Qed.

Lemma get_snoc (p : string) (c : ascii) :
  String.get (String.length p) (snoc p c) = Some c.
Proof. unfold snoc. induction p as [|a p IH]; simpl; [reflexivity|exact IH]. Qed.

Lemma substring_snoc (p : string) (c : ascii) :
  String.substring 0 (String.length p) (snoc p c) = p.
Proof. unfold snoc. induction p as [|a p IH]; simpl; [reflexivity|now rewrite IH]. Qed.

Lemma snoc_inj (p q : string) (c d : ascii) :
  snoc p c = snoc q d -> p = q /\ c = d.
Proof.
  unfold snoc. revert q; induction p as [|a p IH]; intros [|b q] H; simpl in H.
  - now inversion H.
  - inversion H as [[Ha Hq]]. destruct q; discriminate.
  - inversion H as [[Ha Hp]]. destruct p; discriminate.
  - inversion H as [[Ha Hpq]]. destruct (IH _ Hpq) as [-> ->]. now split.
Qed.

Lemma index_last (p : string) (c : ascii) :
  index (snoc p c) (len (snoc p c) - 1) = Some c.
Proof.
  unfold index, len. rewrite length_snoc.
  replace (Z.of_nat (S (String.length p)) - 1) with (Z.of_nat (String.length p)) by lia.
  destruct (Z.ltb_spec (Z.of_nat (String.length p)) 0); [lia|].
  destruct (Z.leb_spec (Z.of_nat (S (String.length p))) (Z.of_nat (String.length p))); [lia|].
  cbn [orb]. rewrite Nat2Z.id. apply get_snoc.
Qed.

Lemma slice_to_last (p : string) (c : ascii) :
  slice_to (snoc p c) (len (snoc p c) - 1) = Some p.
Proof.
  unfold slice_to, len. rewrite length_snoc.
  replace (Z.of_nat (S (String.length p)) - 1) with (Z.of_nat (String.length p)) by lia.
  destruct (Z.ltb_spec (Z.of_nat (String.length p)) 0); [lia|].
  destruct (Z.ltb_spec (Z.of_nat (S (String.length p))) (Z.of_nat (String.length p))); [lia|].
  cbn [orb]. rewrite Nat2Z.id. now rewrite substring_snoc.
Qed.

Lemma cleanURL_snoc (p : string) (c : ascii) :
  cleanURL (snoc p c) = if Ascii.eqb c "/"%char then Some p else Some (snoc p c).
Proof.
  unfold cleanURL. rewrite index_last.
  destruct (Ascii.eqb c "/"); [apply slice_to_last|reflexivity].
Qed.

Lemma cleanURL_nonempty (url : string) :
  url <> "" ->
  exists p, cleanURL url = Some p /\
            (url = p ++ "/" \/ (p = url /\ forall q, url <> q ++ "/")).
Proof.
  intros Hne. destruct (snoc_cases url) as [->|(p & c & ->)]; [congruence|].
  rewrite cleanURL_snoc. destruct (Ascii.eqb_spec c "/"%char) as [->|Hc].
  - exists p. split; [reflexivity|now left].
  - exists (snoc p c). split; [reflexivity|right]. split; [reflexivity|].
    intros q Hq. apply (snoc_inj p q c "/"%char) in Hq. now destruct Hq.
Qed.







End RegistryFacts.

(** ** SyncWorker: the busy flag *)

Module WorkerFacts.
Import Worker.

Lemma state_eta (s : state) : mkState (self s) (trace s) = s.
Proof. now destruct s. Qed.

Lemma set_Busy_same (r : repo) : set_Busy (Busy r) r = r.
Proof. now destruct r. Qed.

(** *** Statements that cannot be left polling *)

Lemma never_waits_ret {A} (a : A) : never_waits (ret a).
Proof. intros s; discriminate. Qed.

Lemma never_waits_return {A} : never_waits (@return_ A).
Proof. intros s; discriminate. Qed.

Lemma never_waits_emit (e : event) : never_waits (emit e).
Proof. intros s; discriminate. Qed.

Lemma never_waits_log (l : level) (msg : string) : never_waits (log l msg).
Proof. intros s; discriminate. Qed.

Lemma never_waits_get_self : never_waits get_self.
Proof. intros s; discriminate. Qed.

Lemma never_waits_assign_Busy (b : bool) : never_waits (assign_Busy b).
Proof. intros s; discriminate. Qed.

Lemma never_waits_bind {A B} (m : M A) (k : A -> M B) :
  never_waits m -> (forall a, never_waits (k a)) -> never_waits (bind m k).
Proof.
  intros Hm Hk s. unfold bind. specialize (Hm s).
  destruct (m s) as [[a| |] s1]; simpl in *;
    [apply Hk|discriminate|congruence].
Qed.

Lemma never_waits_call (m : M unit) : never_waits m -> never_waits (call m).
Proof.
  intros Hm s. unfold call. specialize (Hm s).
  destruct (m s) as [[a| |] s1]; simpl in *; congruence.
Qed.

Lemma never_waits_if {A} (b : bool) (m1 m2 : M A) :
  never_waits m1 -> never_waits m2 -> never_waits (if b then m1 else m2).
Proof. now destruct b. Qed.

Create HintDb flow.
#[local] Hint Resolve never_waits_ret never_waits_return never_waits_emit
  never_waits_log never_waits_get_self never_waits_assign_Busy
  never_waits_call never_waits_if : flow.

Ltac flow :=
  repeat first
    [ progress cbv zeta
    | apply never_waits_bind; [|intros ?]
    | apply never_waits_if
    | match goal with
      | |- never_waits (match ?x with _ => _ end) => destruct x
      end
    | solve [auto with flow] ].

Lemma never_waits_touchTrigger (w : world) : never_waits (touchTrigger w).
Proof. unfold touchTrigger. flow. Qed.

Lemma never_waits_fetch_loop (w : world) (r : repo) (n : nat) (i : Z) :
  never_waits (fetch_loop w r n i).
Proof.
  revert i. induction n as [|n IH]; intros i; simpl; [auto with flow|].
  unfold do_fetch. flow; apply IH.
Qed.

#[local] Hint Resolve never_waits_touchTrigger never_waits_fetch_loop : flow.

(** *** The wait for the flag *)

Lemma waitForCompletion_clear (w : world) (fuel k : nat) (s : state) :
  Busy (self s) = false -> waitForCompletion w fuel k s = (Next tt, s).
Proof. intros H. destruct fuel; simpl; now rewrite H. Qed.

(** When some check from the [k]-th sleep on finds the flag clear, the wait
    ends with the flag clear, the other fields untouched, and only warnings
    and sleeps in the trace. *)
Lemma waitForCompletion_ends (w : world) (fuel : nat) :
  forall (k : nat) (s : state),
    (exists j, (j <= fuel)%nat /\
               match j with
               | O => Busy (self s)
               | S j' => busy_after_sleep w (k + j')
               end = false) ->
    exists evs,
      waitForCompletion w fuel k s
      = (Next tt, mkState (set_Busy false (self s)) (trace s ++ evs)) /\
      forallb quiet evs = true.
Proof.
  induction fuel as [|fuel IH]; intros k s (j & Hj & Hflag).
  - assert (j = 0%nat) by lia; subst j.
    exists []. rewrite waitForCompletion_clear by assumption.
    rewrite app_nil_r, <- Hflag, set_Busy_same, state_eta. now split.
  - destruct (Busy (self s)) eqn:Hb.
    + destruct j as [|j]; [congruence|].
      cbn [waitForCompletion]. rewrite Hb. cbn [bind log emit assign_Busy self trace].
      destruct (IH (S k) (mkState (set_Busy (busy_after_sleep w k) (self s))
                                  ((trace s ++ [Log Warning "Repo is in the middle of an update, waiting..."])
                                     ++ [TimeSleep (3 * Second)])))
        as (evs & Hrun & Hq).
      * destruct j as [|j].
        -- exists 0%nat. split; [lia|]. simpl. now rewrite Nat.add_0_r in Hflag.
        -- exists (S j). split; [lia|]. now rewrite Nat.add_succ_r in Hflag.
      * eexists. rewrite Hrun. cbn [self trace set_Busy URL Path Directory Label
                                     LabelType Remote Secret SSHPrivKey SSHPassPhrase Trigger].
        rewrite <- !app_assoc. split; [reflexivity|]. simpl. exact Hq.
    + exists []. rewrite waitForCompletion_clear by assumption.
      rewrite app_nil_r, <- Hb, set_Busy_same, state_eta. now split.
Qed.

Lemma wait_ends_run (w : world) (fuel : nat) (s : state) :
  wait_ends w fuel s ->
  exists evs,
    waitForCompletion w fuel 0 s
    = (Next tt, mkState (set_Busy false (self s)) (trace s ++ evs)) /\
    forallb quiet evs = true.
Proof.
  intros (k & Hk & Hflag). apply waitForCompletion_ends.
  exists k. split; [exact Hk|]. now destruct k.
Qed.

(** *** The deferred [finished] *)

Lemma bind_get_self {B} (k : repo -> M B) (s : state) :
  bind get_self k s = k (self s) s.
Proof. reflexivity. Qed.

Lemma bind_next {A B} (m : M A) (k : A -> M B) (s s1 : state) (a : A) :
  m s = (Next a, s1) -> bind m k s = k a s1.
Proof. intros H. unfold bind. now rewrite H. Qed.

Lemma bind_returned {A B} (m : M A) (k : A -> M B) (s s1 : state) :
  m s = (Returned, s1) -> bind m k s = (Returned, s1).
Proof. intros H. unfold bind. now rewrite H. Qed.

Lemma with_defer_finished (body : M unit) (s s' : state) (f : flow unit) :
  with_defer finished body s = (f, s') ->
  f = Waiting \/ (f = Next tt /\ Busy (self s') = false).
Proof.
  unfold with_defer. destruct (body s) as [[[]| |] s1]; intros H; inversion H; subst;
    auto.
Qed.

Lemma with_defer_returns (body : M unit) (s : state) :
  fst (body s) <> Waiting ->
  exists s', with_defer finished body s = (Next tt, s') /\ Busy (self s') = false.
Proof.
  unfold with_defer. destruct (body s) as [[[]| |] s1]; simpl; intros H;
    try congruence; eexists; split; reflexivity.
Qed.

Lemma clone_returns (w : world) (fuel : nat) (s : state) :
  wait_ends w fuel s ->
  exists s', clone w fuel s = (Next tt, s') /\ Busy (self s') = false.
Proof.
  intros Hw. destruct (wait_ends_run w fuel s Hw) as (evs & Hrun & _).
  apply with_defer_returns. rewrite bind_get_self, (bind_next _ _ _ _ _ Hrun).
  match goal with
  | |- fst (?m _) <> Waiting => assert (never_waits m) as Hnw by flow; apply Hnw
  end.
Qed.

Lemma update_returns (w : world) (fuel : nat) (s : state) :
  wait_ends w fuel s ->
  exists s', update w fuel s = (Next tt, s') /\ Busy (self s') = false.
Proof.
  intros Hw. destruct (wait_ends_run w fuel s Hw) as (evs & Hrun & _).
  apply with_defer_returns. rewrite bind_get_self, (bind_next _ _ _ _ _ Hrun).
  match goal with
  | |- fst (?m _) <> Waiting =>
      assert (never_waits m) as Hnw
        by (unfold reference, tagObject, do_reset; flow);
      apply Hnw
  end.
Qed.

(** C9.  Whatever the collaborators answer (ssh auth, open, fetch,
    reference, reset and verification failures included), a [clone] or
    [update] that returns has run the deferred [finished] last, so the
    record is not busy; and once a check of the flag finds it clear, both
    do return. *)
Theorem busy_cleared_on_every_exit (w : world) (fuel : nat) (s : state) :
  (forall f s',
      clone w fuel s = (f, s') \/ update w fuel s = (f, s') ->
      f = Waiting \/ (f = Next tt /\ Busy (self s') = false)) /\
  (wait_ends w fuel s ->
   (exists s', clone w fuel s = (Next tt, s') /\ Busy (self s') = false) /\
   (exists s', update w fuel s = (Next tt, s') /\ Busy (self s') = false)).
Proof.
  split.
  - intros f s' [H|H]; exact (with_defer_finished _ _ _ _ H).
  - intros Hw. split; [now apply clone_returns|now apply update_returns].
Qed.

Lemma busy_cleared_on_every_exit_witness :
  (exists s', clone Samples.no_ssh_key 1 Samples.site_in_use = (Next tt, s') /\
              Busy (self s') = false) /\
  (exists s', update Samples.no_ssh_key 1 Samples.site_in_use = (Next tt, s') /\
              Busy (self s') = false).
Proof.
  apply (proj2 (busy_cleared_on_every_exit Samples.no_ssh_key 1 Samples.site_in_use)).
  exists 1%nat. split; [lia|reflexivity].
Defined.

End WorkerFacts.

(** ** SyncWorker: the fetch loop *)

Module FetchFacts.
Import Worker WorkerFacts.
#[local] Open Scope list_scope.

Lemma count_app (p : event -> bool) (l1 l2 : list event) :
  count p (l1 ++ l2) = (count p l1 + count p l2)%nat.
Proof. unfold count. now rewrite filter_app, length_app. Qed.

Lemma count_cons (p : event -> bool) (e : event) (l : list event) :
  count p (e :: l) = ((if p e then 1 else 0) + count p l)%nat.
Proof. unfold count. simpl. now destruct (p e). Qed.

Lemma count_nil (p : event -> bool) : count p [] = 0%nat.
Proof. reflexivity. Qed.

Lemma quiet_counts (evs : list event) :
  forallb quiet evs = true ->
  count is_fetch evs = 0%nat /\ count is_reference evs = 0%nat /\
  count is_reset evs = 0%nat /\ count is_touch evs = 0%nat.
Proof.
  induction evs as [|e evs IH]; simpl; [now repeat split|].
  intros H. apply andb_prop in H. destruct H as [He Hevs].
  destruct (IH Hevs) as (H1 & H2 & H3 & H4).
  rewrite !count_cons, H1, H2, H3, H4.
  unfold quiet in He. apply negb_true_iff in He.
  apply orb_false_iff in He. destruct He as [He Ht].
  apply orb_false_iff in He. destruct He as [He Hs].
  apply orb_false_iff in He. destruct He as [Hf Hr].
  now rewrite Hf, Hr, Hs, Ht.
Qed.

Lemma failed_attempts_counts (w : world) (r : repo) (k : nat) :
  count is_fetch (failed_attempts w r k) = k /\
  count is_reference (failed_attempts w r k) = 0%nat /\
  count is_reset (failed_attempts w r k) = 0%nat /\
  count is_touch (failed_attempts w r k) = 0%nat.
Proof.
  induction k as [|k (H1 & H2 & H3 & H4)]; [now repeat split|].
  cbn [failed_attempts]. rewrite !count_app, H1, H2, H3, H4.
  now repeat split.
Qed.

(** [k] failing attempts take the loop from [i] to [i + k]. *)
Lemma fetch_loop_failed (w : world) (r : repo) (k : nat) :
  forall (n : nat) (i : Z) (s : state),
    (k <= n)%nat ->
    (forall j, (j < k)%nat -> fetch w (i + Z.of_nat j) = FetchFailed) ->
    fetch_loop w r n i s
    = fetch_loop w r (n - k) (i + Z.of_nat k)
                 (mkState (self s) (trace s ++ failed_attempts w r k)).
Proof.
  induction k as [|k IH]; intros n i s Hk Hfail.
  - rewrite Nat.sub_0_r, Z.add_0_r. cbn [failed_attempts].
    now rewrite app_nil_r, state_eta.
  - destruct n as [|n]; [lia|].
    pose proof (Hfail 0%nat ltac:(lia)) as H0. rewrite Z.add_0_r in H0.
    cbn [fetch_loop]. unfold do_fetch. cbn [bind log emit ret self trace].
    rewrite H0. cbn [bind log emit ret self trace].
    rewrite (IH n (i + 1)).
    + cbn [self trace failed_attempts failed_attempt Nat.sub].
      replace (i + 1 + Z.of_nat k) with (i + Z.of_nat (S k)) by lia.
      now rewrite <- !app_assoc.
    + lia.
    + intros j Hj. replace (i + 1 + Z.of_nat j) with (i + Z.of_nat (S j)) by lia.
      apply Hfail. lia.
Qed.

Lemma fetch_loop_passes (w : world) (r : repo) (k : nat) (s : state) :
  fetch_passes w k ->
  fetch_loop w r (Z.to_nat (RetryCount w)) 0 s
  = (Next tt, mkState (self s) (trace s ++ passing_fetches w r k)).
Proof.
  intros (Hfail & Hend).
  assert (Hk : (k <= Z.to_nat (RetryCount w))%nat) by (destruct Hend as [[]|]; lia).
  rewrite (fetch_loop_failed w r k _ 0 s Hk) by (intros j Hj; now apply Hfail).
  unfold passing_fetches. destruct Hend as [[Hlt Hnil]| ->].
  - destruct (Nat.ltb_spec k (Z.to_nat (RetryCount w))); [|lia].
    destruct (Z.to_nat (RetryCount w) - k)%nat as [|m] eqn:Hm; [lia|].
    cbn [fetch_loop]. unfold do_fetch. cbn [bind log emit ret self trace].
    rewrite Z.add_0_l, Hnil. cbn [self trace]. now rewrite <- !app_assoc.
  - rewrite Nat.sub_diag, Nat.ltb_irrefl, app_nil_r. reflexivity.
Qed.

Lemma fetch_loop_sentinel (w : world) (r : repo) (k n : nat) (s : state) :
  (k < n)%nat ->
  (forall i, (i < k)%nat -> fetch w (Z.of_nat i) = FetchFailed) ->
  fetch w (Z.of_nat k) = NoErrAlreadyUpToDate ->
  fetch_loop w r n 0 s
  = (Returned,
     mkState (self s)
             (trace s ++ failed_attempts w r k ++
              [Log Info "Fetch attempt: "; GitFetch (Remote r);
               Log Info "No new commits"])).
Proof.
  intros Hk Hfail Hup.
  rewrite (fetch_loop_failed w r k n 0 s) by (try lia; intros j Hj; now apply Hfail).
  destruct (n - k)%nat as [|m] eqn:Hm; [lia|].
  cbn [fetch_loop]. unfold do_fetch. cbn [bind log emit ret self trace].
  rewrite Z.add_0_l, Hup. cbn [bind log emit return_ self trace].
  now rewrite <- !app_assoc.
Qed.

End FetchFacts.

(** ** SyncWorker: Update *)

Module UpdateFacts.
Import Worker WorkerFacts FetchFacts.
#[local] Open Scope list_scope.

Lemma with_defer_run (body : M unit) (s s1 : state) (f : flow unit) :
  body s = (f, s1) -> f <> Waiting ->
  with_defer finished body s
  = (Next tt, mkState (set_Busy false (self s1)) (trace s1)).
Proof.
  intros H Hf. unfold with_defer. rewrite H.
  destruct f as [[]| |]; try congruence; reflexivity.
Qed.

Ltac exec :=
  cbn [bind ret return_ emit log get_self assign_Busy reference tagObject
       do_reset call finished self trace set_Busy
       URL Path Directory Label LabelType Remote Secret SSHPrivKey
       SSHPassPhrase Trigger].

Ltac counts :=
  unfold before_reset, passing_fetches, opening;
  repeat match goal with
         | |- context [if (?a <? ?b)%nat then _ else _] => destruct (a <? b)%nat
         | |- context [match tag_object ?w ?h with _ => _ end] =>
             destruct (tag_object w h)
         end;
  rewrite ?count_app, ?count_cons, ?count_nil;
  repeat match goal with
         | H : forallb quiet ?evs = true |- _ =>
             destruct (quiet_counts evs H) as (? & ? & ? & ?); clear H
         end;
  repeat match goal with
         | |- context [failed_attempts ?w ?r ?k] =>
             destruct (failed_attempts_counts w r k) as (? & ? & ? & ?);
             generalize dependent (failed_attempts w r k); intros
         end;
  cbn [is_fetch is_reference is_reset is_touch];
  try lia.

Lemma update_sentinel_run (w : world) (fuel : nat) (s : state) (k : nat) :
  wait_ends w fuel s ->
  ssh_ok w = true -> open_ok w = true -> worktree_ok w = true ->
  (k < Z.to_nat (RetryCount w))%nat ->
  (forall i, (i < k)%nat -> fetch w (Z.of_nat i) = FetchFailed) ->
  fetch w (Z.of_nat k) = NoErrAlreadyUpToDate ->
  exists evs1,
    forallb quiet evs1 = true /\
    update w fuel s
    = (Next tt,
       mkState (set_Busy false (set_Busy true (set_Busy false (self s))))
               (trace s ++ evs1 ++ opening (self s) ++
                failed_attempts w (self s) k ++
                [Log Info "Fetch attempt: "] ++
                [GitFetch (Remote (self s)); Log Info "No new commits"])).
Proof.
  intros Hw Hssh Hopen Hwt Hk Hfail Hup.
  destruct (wait_ends_run w fuel s Hw) as (evs1 & Hrun & Hq).
  exists evs1. split; [exact Hq|].
  unfold update. erewrite with_defer_run; cycle 1.
  - rewrite bind_get_self, (bind_next _ _ _ _ _ Hrun), Hssh, Hopen, Hwt.
    exec. rewrite (bind_returned _ _ _ _ (fetch_loop_sentinel w _ k _ _ Hk Hfail Hup)).
    reflexivity.
  - discriminate.
  - exec. unfold opening. rewrite <- !app_assoc. reflexivity.
Qed.

(** C6.  When attempt [k] of the fetch loop is reached and answers "already
    up to date", [update] returns at once: [k + 1] fetches were made, no
    reference was resolved, nothing was reset, the trigger was not touched,
    and the last thing done is the "No new commits" report of that
    attempt. *)
Theorem already_up_to_date_ends_update
    (w : world) (fuel : nat) (s : state) (k : nat) :
  wait_ends w fuel s ->
  ssh_ok w = true -> open_ok w = true -> worktree_ok w = true ->
  (k < Z.to_nat (RetryCount w))%nat ->
  (forall i, (i < k)%nat -> fetch w (Z.of_nat i) = FetchFailed) ->
  fetch w (Z.of_nat k) = NoErrAlreadyUpToDate ->
  exists s' evs before,
    update w fuel s = (Next tt, s') /\
    Busy (self s') = false /\
    trace s' = trace s ++ evs /\
    count is_fetch evs = S k /\
    count is_reference evs = 0%nat /\
    count is_reset evs = 0%nat /\
    count is_touch evs = 0%nat /\
    evs = before ++ [GitFetch (Remote (self s)); Log Info "No new commits"].
Proof.
  intros Hw Hssh Hopen Hwt Hk Hfail Hup.
  destruct (update_sentinel_run w fuel s k Hw Hssh Hopen Hwt Hk Hfail Hup)
    as (evs1 & Hq & Hrun).
  eexists. eexists.
  exists (evs1 ++ opening (self s) ++ failed_attempts w (self s) k
               ++ [Log Info "Fetch attempt: "]).
  split; [exact Hrun|]. split; [reflexivity|]. split; [reflexivity|].
  unfold opening. repeat split; [counts..|].
  now rewrite <- !app_assoc.
Qed.

Lemma HasTrigger_set_Busy (b : bool) (r : repo) :
  HasTrigger (set_Busy b r) = HasTrigger r.
Proof. reflexivity. Qed.

(** Runs [update] up to the comparison with the local HEAD along the path
    on which nothing fails, leaving the statements from the reset on. *)
Ltac to_reset Hrun Hloop :=
  rewrite bind_get_self, (bind_next _ _ _ _ _ Hrun);
  repeat match goal with
         | H : ?x = _ |- context [?x] => rewrite H
         end;
  exec;
  rewrite (bind_next _ _ _ _ _ (fetch_loop_passes _ _ _ _ Hloop));
  exec;
  repeat match goal with
         | H : ?x = _ |- context [?x] => rewrite H; exec
         end.

(** C8.  When the hard reset succeeded and the HEAD read after it differs
    from the target hash, [update] logs the mismatch as an error and
    returns: the trace ends with the reset, the HEAD read and the mismatch
    report, so nothing is retried, and the trigger is never touched. *)
Theorem post_reset_mismatch_fails
    (w : world) (fuel : nat) (s : state) (k : nat) (h l h' : Hash) :
  wait_ends w fuel s ->
  ssh_ok w = true -> open_ok w = true -> worktree_ok w = true ->
  fetch_passes w k ->
  reference_before w (tracked_ref (self s)) = Some h ->
  reference_before w "HEAD" = Some l ->
  l <> h ->
  reset_ok w (target_hash w h) = true ->
  reference_after w (target_hash w h) "HEAD" = Some h' ->
  h' <> target_hash w h ->
  exists s' pre,
    update w fuel s = (Next tt, s') /\
    Busy (self s') = false /\
    trace s' = trace s ++ pre ++
               [GitReset (target_hash w h);
                Log Info "Hard reset successful, confirming changes....";
                GitReference "HEAD";
                Log Error "Something went wrong, hashes don't match!";
                Log Debug "Remote hash: %v";
                Log Debug "Local hash:  %v"] /\
    count is_reset pre = 0%nat /\
    count is_touch pre = 0%nat.
Proof.
  intros Hw Hssh Hopen Hwt Hloop Href Hhead Hne Hreset Hafter Hmis.
  destruct (wait_ends_run w fuel s Hw) as (evs1 & Hrun & Hq).
  apply N.eqb_neq in Hmis.
  assert (Hcmp : (h =? l)%N = false) by (apply N.eqb_neq; congruence).
  unfold target_hash in *.
  destruct (tag_object w h) as [t|] eqn:Htag;
    (eexists; exists (evs1 ++ before_reset w (self s) k h);
     split;
     [ unfold update; eapply with_defer_run; [to_reset Hrun Hloop; reflexivity|discriminate]
     | split; [reflexivity|];
       split; [|split; counts];
       unfold before_reset, passing_fetches, opening; rewrite Htag;
       exec; rewrite <- !app_assoc; reflexivity ]).
Qed.

(** Runs the statements after the reset, [touchTrigger] included, with the
    answers found in the context. *)
Ltac after_reset :=
  repeat match goal with
         | H : ?x = _ |- context [?x] => rewrite H; exec
         end;
  try (unfold call, touchTrigger; exec; rewrite ?HasTrigger_set_Busy;
       repeat match goal with
              | H : ?x = _ |- context [?x] => rewrite H; exec
              end).

Ltac in_list :=
  cbn [In]; split; intros;
  repeat match goal with
         | H : _ /\ _ |- _ => destruct H
         | H : exists _, _ |- _ => destruct H
         | H : _ \/ _ |- _ => destruct H
         | H : False |- _ => destruct H
         | H : Some _ = Some _ |- _ => inversion H; subst; clear H
         end;
  try discriminate; try congruence;
  first [ solve [repeat split; eauto]
        | solve [repeat first [left; reflexivity | right]] ].

(** C7.  When the label is a tag whose reference resolves to the annotated
    tag object [h] with target commit [Target t], the one hard reset of the
    run is a reset to [Target t], and the verification after it compares
    the re-read HEAD with [Target t]: it confirms exactly when they are
    equal and reports a mismatch exactly when they differ. *)
Theorem annotated_tag_resets_to_target
    (w : world) (fuel : nat) (s : state) (k : nat) (h l : Hash) (t : tag) :
  wait_ends w fuel s ->
  ssh_ok w = true -> open_ok w = true -> worktree_ok w = true ->
  fetch_passes w k ->
  LabelType (self s) = "tag"%string ->
  reference_before w ("refs/tags/" ++ Label (self s))%string = Some h ->
  tag_object w h = Some t ->
  reference_before w "HEAD" = Some l ->
  l <> h ->
  exists s' pre post,
    update w fuel s = (Next tt, s') /\
    trace s' = trace s ++ pre ++ GitReset (Target t) :: post /\
    count is_reset pre = 0%nat /\
    count is_reset post = 0%nat /\
    (In (Log Info "Changes confirmed, latest hash: %v") post <->
     reset_ok w (Target t) = true /\
     reference_after w (Target t) "HEAD" = Some (Target t)) /\
    (In (Log Error "Something went wrong, hashes don't match!") post <->
     reset_ok w (Target t) = true /\
     exists h', reference_after w (Target t) "HEAD" = Some h' /\ h' <> Target t).
Proof.
  intros Hw Hssh Hopen Hwt Hloop Hkind Href Htag Hhead Hne.
  destruct (wait_ends_run w fuel s Hw) as (evs1 & Hrun & Hq).
  assert (Hcmp : (h =? l)%N = false) by (apply N.eqb_neq; congruence).
  assert (Hname : tracked_ref (self s) = ("refs/tags/" ++ Label (self s))%string)
    by (unfold tracked_ref; now rewrite Hkind).
  rewrite <- Hname in Href. clear Hname Hkind.
  destruct (reset_ok w (Target t)) eqn:Hreset;
    [destruct (reference_after w (Target t) "HEAD") as [hh|] eqn:Hafter;
     [destruct (N.eqb_spec hh (Target t)) as [->|Hdiff];
      [pose proof (N.eqb_refl (Target t)) as Hsame;
       destruct (HasTrigger (self s)) eqn:Htrig;
       [destruct (chtimes_ok w) eqn:Hch; [|destruct (stat_ok w) eqn:Hstat]|]
      |pose proof (proj2 (N.eqb_neq hh (Target t)) Hdiff) as Hsame]|]|];
    (eexists; exists (evs1 ++ before_reset w (self s) k h); eexists;
     split;
     [ unfold update; eapply with_defer_run;
       [to_reset Hrun Hloop; after_reset; reflexivity|discriminate]
     | split;
       [ unfold before_reset, passing_fetches, opening; rewrite Htag;
         exec; rewrite <- !app_assoc; cbn [app]; reflexivity
       | split; [counts|split; [reflexivity|split; in_list]] ] ]).
Qed.

Lemma already_up_to_date_ends_update_witness :
  exists s' evs before,
    update Samples.nothing_new_on_retry 0 (mkState Samples.site []) = (Next tt, s') /\
    Busy (self s') = false /\
    trace s' = [] ++ evs /\
    count is_fetch evs = 2%nat /\
    count is_reference evs = 0%nat /\
    count is_reset evs = 0%nat /\
    count is_touch evs = 0%nat /\
    evs = before ++ [GitFetch "origin"; Log Info "No new commits"].
Proof.
  apply (already_up_to_date_ends_update
           Samples.nothing_new_on_retry 0 (mkState Samples.site []) 1).
  - exists 0%nat. split; [lia|reflexivity].
  - reflexivity.
  - reflexivity.
  - reflexivity.
  - simpl. lia.
  - intros i Hi. assert (i = 0%nat) as -> by lia. reflexivity.
  - reflexivity.
Defined.

Lemma annotated_tag_resets_to_target_witness :
  exists s' pre post,
    update Samples.behind_tag 0 (mkState Samples.docs []) = (Next tt, s') /\
    trace s' = [] ++ pre ++ GitReset 9%N :: post /\
    count is_reset pre = 0%nat /\
    count is_reset post = 0%nat /\
    (In (Log Info "Changes confirmed, latest hash: %v") post <->
     reset_ok Samples.behind_tag 9%N = true /\
     reference_after Samples.behind_tag 9%N "HEAD" = Some 9%N) /\
    (In (Log Error "Something went wrong, hashes don't match!") post <->
     reset_ok Samples.behind_tag 9%N = true /\
     exists h', reference_after Samples.behind_tag 9%N "HEAD" = Some h' /\ h' <> 9%N).
Proof.
  apply (annotated_tag_resets_to_target
           Samples.behind_tag 0 (mkState Samples.docs []) 0 7%N 5%N (mkTag 7%N 9%N)).
  - exists 0%nat. split; [lia|reflexivity].
  - reflexivity.
  - reflexivity.
  - reflexivity.
  - split; [intros i Hi; lia|]. left. split; [simpl; lia|reflexivity].
  - reflexivity.
  - reflexivity.
  - reflexivity.
  - reflexivity.
  - discriminate.
Defined.

Lemma post_reset_mismatch_fails_witness :
  exists s' pre,
    update Samples.reset_without_effect 0 (mkState Samples.site []) = (Next tt, s') /\
    Busy (self s') = false /\
    trace s' = [] ++ pre ++
               [GitReset 7%N;
                Log Info "Hard reset successful, confirming changes....";
                GitReference "HEAD";
                Log Error "Something went wrong, hashes don't match!";
                Log Debug "Remote hash: %v";
                Log Debug "Local hash:  %v"] /\
    count is_reset pre = 0%nat /\
    count is_touch pre = 0%nat.
Proof.
  apply (post_reset_mismatch_fails
           Samples.reset_without_effect 0 (mkState Samples.site []) 0 7%N 9%N 9%N).
  - exists 0%nat. split; [lia|reflexivity].
  - reflexivity.
  - reflexivity.
  - reflexivity.
  - split; [intros i Hi; lia|]. left. split; [simpl; lia|reflexivity].
  - reflexivity.
  - reflexivity.
  - discriminate.
  - reflexivity.
  - reflexivity.
  - discriminate.
Defined.

(** C2, at a failing input.  Both configured fetch attempts fail, yet
    [update] goes on after the loop: it reports "Fetched new updates",
    resolves the branch and HEAD, resets the work tree to commit 7 and
    touches the trigger file. *)
Theorem exhausted_retries_fall_through :
  update Samples.unreachable_remote 0 (mkState Samples.site [])
  = (Next tt,
     mkState Samples.site
       [SshNewPublicKeysFromFile "git" "/etc/gwg/id_rsa" "";
        GitPlainOpen "/srv/site"; GitWorktree;
        Log Info "Fetch attempt: "; GitFetch "origin";
        Log Error "Failed to fetch updates: %v"; TimeSleep 10000000000;
        Log Info "Fetch attempt: "; GitFetch "origin";
        Log Error "Failed to fetch updates: %v"; TimeSleep 10000000000;
        Log Info "Fetched new updates";
        GitReference "refs/remotes/origin/master"; GitTagObject 7%N;
        GitReference "HEAD"; GitReset 7%N;
        Log Info "Hard reset successful, confirming changes....";
        GitReference "HEAD";
        Log Info "Changes confirmed, latest hash: %v";
        OsChtimes "/srv/site.trigger";
        Log Info "Successfully updated trigger file"]).
Proof. reflexivity. Qed.

(** C4, at a failing input.  The tag [v1] is the annotated tag object 7
    with target commit 9 and HEAD is already at commit 9; [update] compares
    HEAD with the tag object's own hash 7, finds them different, and resets
    the work tree to commit 9 and touches the trigger file. *)
Theorem reset_although_at_tag_target :
  update Samples.at_tagged_commit 0 (mkState Samples.docs [])
  = (Next tt,
     mkState Samples.docs
       [SshNewPublicKeysFromFile "git" "/etc/gwg/id_rsa" "";
        GitPlainOpen "/srv/docs"; GitWorktree;
        Log Info "Fetch attempt: "; GitFetch "origin";
        Log Info "Fetched new updates";
        GitReference "refs/tags/v1"; GitTagObject 7%N;
        Log Info "Annotated tag hash: %v";
        Log Info "Annotated tag target hash: %v";
        GitReference "HEAD"; GitReset 9%N;
        Log Info "Hard reset successful, confirming changes....";
        GitReference "HEAD";
        Log Info "Changes confirmed, latest hash: %v";
        OsChtimes "/srv/docs.trigger";
        Log Info "Successfully updated trigger file"]).
Proof. reflexivity. Qed.

End UpdateFacts.

(** ** Dispatcher *)

Module EngineFacts.
Import Engine.

Lemma holding_replace (l : list goroutine) :
  forall (i : nat) (g g' : goroutine),
    nth_error l i = Some g ->
    Z.of_nat (List.length (filter holds_permit (replace_goroutine l i g')))
    = Z.of_nat (List.length (filter holds_permit l))
      - (if holds_permit g then 1 else 0) + (if holds_permit g' then 1 else 0).
Proof.
  induction l as [|x l IH]; intros [|i] g g' Hnth; simpl in Hnth; try discriminate.
  - inversion Hnth; subst. cbn [replace_goroutine filter].
    destruct (holds_permit g), (holds_permit g'); cbn [List.length]; lia.
  - cbn [replace_goroutine filter]. specialize (IH i g g' Hnth).
    destruct (holds_permit x); cbn [List.length]; lia.
Qed.

Lemma step_goroutine_permits (s s' : state) (i : nat) :
  permits_ok s -> step_goroutine s i = Some s' ->
  permits_ok s' /\ sem_cap s' = sem_cap s.
Proof.
  unfold permits_ok, running, step_goroutine. intros [Hrun Hcap].
  destruct (nth_error (gs s) i) as [g|] eqn:Hnth; [|discriminate].
  pose proof (fun g' => holding_replace (gs s) i g g' Hnth) as Hrep.
  assert (Hg : holds_permit g
               = match at_pc g with AtAcquire | Done => false | _ => true end)
    by reflexivity.
  destruct (at_pc g) eqn:Hpc;
    repeat match goal with
           | |- context [if ?b then _ else _] => destruct b eqn:?
           end;
    intros H; inversion H; subst; clear H; cbn [gs sem_len sem_cap];
    rewrite Hrep, Hg; cbn [holds_permit at_pc];
    repeat match goal with
           | H : (_ <? _) = true |- _ => apply Z.ltb_lt in H
           end;
    split; try reflexivity; lia.
Qed.

Lemma step_permits (s s' : state) (l : label) :
  permits_ok s -> step s l = Some s' ->
  permits_ok s' /\ sem_cap s' = sem_cap s.
Proof.
  intros Hok. destruct l as [idx|idx| |i|threads nrepos]; cbn [step].
  - unfold enqueue. destruct (nth_error (C_Repos s) idx); [|discriminate].
    destruct (100 <=? _)%nat; [discriminate|].
    intros H; inversion H; subst. now split.
  - unfold enqueue. destruct (nth_error (C_Repos s) idx); [|discriminate].
    destruct (100 <=? _)%nat; [discriminate|].
    intros H; inversion H; subst. now split.
  - destruct (jobs s) as [|j rest]; [discriminate|].
    intros H; inversion H; subst. split; [|reflexivity].
    destruct Hok as [Hrun Hcap]. unfold permits_ok, running in *.
    cbn [gs sem_len sem_cap]. rewrite filter_app. cbn [filter holds_permit at_pc].
    rewrite app_nil_r. now split.
  - now apply step_goroutine_permits.
  - unfold config_change. destruct (existsb _ _); [discriminate|].
    intros H; inversion H; subst. now split.
Qed.

Lemma run_permits (ls : list label) :
  forall s s', permits_ok s -> run s ls = Some s' ->
               permits_ok s' /\ sem_cap s' = sem_cap s.
Proof.
  induction ls as [|l ls IH]; intros s s' Hok; cbn [run].
  - intros H; inversion H; subst. now split.
  - destruct (step s l) as [s1|] eqn:Hstep; [|discriminate].
    destruct (step_permits s s1 l Hok Hstep) as [Hok1 Hcap1]. intros Hrun.
    destruct (IH s1 s' Hok1 Hrun) as [Hok' Hcap']. split; [exact Hok'|congruence].
Qed.

(** What the permit channel does guarantee: in every state reached from
    [main], the goroutines holding a permit are no more than the [threads]
    value the process started with. *)
Lemma running_within_startup_limit
    (threads : Z) (nrepos : nat) (ls : list label) (s : state) :
  launch threads nrepos ls = Some s ->
  running s <= threads /\ sem_cap s = threads.
Proof.
  unfold launch, boot. destruct (Z.ltb_spec threads 0) as [|Hpos]; [discriminate|].
  intros Hrun.
  apply run_permits in Hrun.
  - destruct Hrun as [[Hr Hc] Hcap]. cbn [sem_cap] in Hcap. split; [lia|exact Hcap].
  - unfold permits_ok, running. cbn [gs sem_len sem_cap filter List.length]. lia.
Qed.

(** C1, at a failing input.  With the default five permits, two pushes for
    the same repository are dispatched; each goroutine finds [r.Busy] false
    before the other has set it, both set it, and both are inside their
    update of the one record at the same time. *)
Theorem two_updates_overlap :
  exists s,
    launch 5 1 Samples.two_pushes_in_turn = Some s /\
    map (fun g => (job_repo (its_job g), jobType (its_job g), at_pc g)) (gs s)
    = [(0%nat, "update", InWork); (0%nat, "update", InWork)] /\
    executing_on s 0 = 2%nat.
Proof. eexists. split; [vm_compute; reflexivity|]. split; reflexivity. Qed.

(** C3, at a failing input.  The dispatcher starts with two permits; a
    reload installs a snapshot with [threads = 1]; two jobs dispatched
    afterwards both obtain a permit, because [sem] still has the capacity it
    was made with. *)
Theorem permits_keep_startup_limit :
  exists s,
    launch 2 2 Samples.lower_threads_then_two_pushes = Some s /\
    C_Threads s = 1 /\
    passer_threads s = 1 /\
    sem_cap s = 2 /\
    running s = 2.
Proof. eexists. split; [vm_compute; reflexivity|]. repeat split; reflexivity. Qed.

End EngineFacts.

(** ** ConfigCoordinator *)

Module ReloadFacts.
Import Reload.

(** C5, at a failing input.  The change at 1s is installed; the change
    100ms later is debounced by the early return, which leaves the mutex
    locked; the change at 10s, nine seconds after the last installed
    update, blocks on [mutex.Lock()] and installs nothing. *)
Theorem debounced_change_blocks_later_reloads (fuel : nat) :
  exists s,
    deliver fuel Samples.three_changes Samples.started
    = ([Installed; Debounced; BlockedOnLock], s) /\
    mutex s = true /\
    installs s = 1%nat /\
    LastUpdate (C s) = 1000000000.
Proof.
  eexists. split; [destruct fuel; vm_compute; reflexivity|].
  repeat split; reflexivity.
Qed.

End ReloadFacts.

(** ** RepoRegistry and webhook translation, continued *)

Module RoutingFacts.
Import Registry RegistryFacts Webhook Config.

Lemma prefix_app (p s : string) : String.prefix p (p ++ s) = true.
Proof.
  induction p as [|a p IH]; simpl; [now destruct s|].
  destruct (Ascii.ascii_dec a a); [exact IH|congruence].
Qed.

Lemma length_app (p s : string) :
  String.length (p ++ s) = (String.length p + String.length s)%nat.
Proof. induction p as [|a p IH]; simpl; [reflexivity|now rewrite IH]. Qed.

Lemma substring_all (s : string) : String.substring 0 (String.length s) s = s.
Proof. induction s as [|a s IH]; simpl; [reflexivity|now rewrite IH]. Qed.

Lemma substring_skip (p s : string) (n : nat) :
  String.substring (String.length p) n (p ++ s) = String.substring 0 n s.
Proof. induction p as [|a p IH]; simpl; [reflexivity|exact IH]. Qed.

Lemma substring_take (p s : string) :
  String.substring 0 (String.length p) (p ++ s) = p.
Proof.
  induction p as [|a p IH]; simpl; [now destruct s|now rewrite IH].
Qed.

Lemma TrimPrefix_app (p s : string) : TrimPrefix (p ++ s) p = s.
Proof.
  unfold TrimPrefix. rewrite prefix_app, length_app, substring_skip.
  replace (String.length p + String.length s - String.length p)%nat
    with (String.length s) by lia.
  apply substring_all.
Qed.

Lemma TrimSuffix_app (s suffix : string) : TrimSuffix (s ++ suffix) suffix = s.
Proof.
  unfold TrimSuffix, HasSuffix. rewrite length_app.
  replace (String.length s + String.length suffix - String.length suffix)%nat
    with (String.length s) by lia.
  rewrite substring_skip, substring_all, String.eqb_refl, substring_take.
  destruct (Nat.leb_spec (String.length suffix)
                         (String.length s + String.length suffix)); [reflexivity|lia].
Qed.

(** The short name of a GitHub ssh URL is the [owner/project] part: the
    prefix [git@github.com:] and the suffix [.git] are both removed. *)
Theorem Name_of_github_url (r : repo) (project : string) :
  URL r = "git@github.com:" ++ project ++ ".git" ->
  Name r = project.
Proof.
  intros H. unfold Name. rewrite H, TrimPrefix_app. apply TrimSuffix_app.
Qed.

Lemma Name_of_github_url_witness : Name Samples.site = "acme/site".
Proof. apply (Name_of_github_url Samples.site "acme/site"). reflexivity. Defined.

(** *** Duplicate paths *)





(** *** Lookup *)

Lemma FindRepo_from_same_clean (repos : list repo) (p1 p2 : string) :
  cleanURL p1 = cleanURL p2 ->
  forall r, FindRepo_from repos r p1 = FindRepo_from repos r p2.
Proof.
  intros H. induction repos as [|rp rest IH]; intros r; cbn [FindRepo_from];
    [reflexivity|].
  rewrite H. destruct (cleanURL p2); [|reflexivity].
  destruct (String.eqb (Path rp) s); [reflexivity|apply IH].
Qed.

(** A request path with one trailing slash is routed like the path
    without it. *)
Theorem FindRepo_trailing_slash (repos : list repo) (path : string) :
  path <> "" ->
  (forall q, path <> q ++ "/") ->
  FindRepo repos (path ++ "/") = FindRepo repos path.
Proof.
  intros Hne Hslash. unfold FindRepo. apply FindRepo_from_same_clean.
  destruct (cleanURL_nonempty path Hne) as (p & Hp & [Habs|[-> _]]);
    [now apply Hslash in Habs|].
  rewrite Hp. change (path ++ "/") with (snoc path "/"%char).
  now rewrite cleanURL_snoc.
Qed.

Lemma FindRepo_trailing_slash_witness :
  FindRepo [Samples.site; Samples.docs] ("/docs" ++ "/")
  = FindRepo [Samples.site; Samples.docs] "/docs".
Proof.
  apply (FindRepo_trailing_slash [Samples.site; Samples.docs] "/docs").
  - discriminate.
  - intros q Hq. change (q ++ "/") with (snoc q "/"%char) in Hq.
    change "/docs" with (snoc "/doc" "s"%char) in Hq.
    apply snoc_inj in Hq. destruct Hq as [_ Hq]. discriminate Hq.
Defined.

(** *** The handler *)











(** *** Startup clones *)

Lemma initialClone_from_spec (stat_ok : string -> bool) (repos : list repo) :
  forall (base i : nat) (kind : string),
    In (i, kind) (initialClone_from stat_ok repos base) <->
    kind = "clone" /\
    exists k r, i = (base + k)%nat /\ nth_error repos k = Some r /\
                stat_ok (Directory r) = false.
Proof.
  induction repos as [|r rest IH]; intros base i kind; cbn [initialClone_from].
  - split; [intros []|]. intros (_ & [|k] & r & _ & Hn & _); discriminate.
  - rewrite in_app_iff, IH. split.
    + intros [Hin|(Hk & k & r' & Hi & Hn & Hs)].
      * destruct (stat_ok (Directory r)) eqn:Hs; [destruct Hin|].
        destruct Hin as [Heq|[]]. inversion Heq; subst. split; [reflexivity|].
        exists 0%nat, r. rewrite Nat.add_0_r. now repeat split.
      * split; [exact Hk|]. exists (S k), r'. repeat split; [lia|exact Hn|exact Hs].
    + intros (Hk & [|k] & r' & Hi & Hn & Hs); cbn [nth_error] in Hn.
      * inversion Hn; subst r'. left. rewrite Hs. left. rewrite Nat.add_0_r in Hi.
        now subst.
      * right. split; [exact Hk|]. exists k, r'. repeat split; [lia|exact Hn|exact Hs].
Qed.

Lemma initialClone_from_length (stat_ok : string -> bool) (repos : list repo) :
  forall base,
    List.length (initialClone_from stat_ok repos base)
    = List.length (filter (fun r => negb (stat_ok (Directory r))) repos).
Proof.
  induction repos as [|r rest IH]; intros base; cbn [initialClone_from filter];
    [reflexivity|].
  rewrite List.length_app, IH. now destruct (stat_ok (Directory r)).
Qed.

(** At startup a clone job is sent for a repository exactly when
    [initialise] is set and its directory cannot be stat'ed; there is one
    job per such repository and no other job. *)
Theorem initialClone_jobs
    (Initialise : bool) (stat_ok : string -> bool) (repos : list repo) :
  (forall i kind,
      In (i, kind) (initialClone Initialise stat_ok repos) <->
      Initialise = true /\ kind = "clone" /\
      exists r, nth_error repos i = Some r /\ stat_ok (Directory r) = false) /\
  List.length (initialClone Initialise stat_ok repos)
  = (if Initialise
     then List.length (filter (fun r => negb (stat_ok (Directory r))) repos)
     else 0%nat).
Proof.
  unfold initialClone. destruct Initialise.
  - split; [|apply initialClone_from_length].
    intros i kind. rewrite initialClone_from_spec. split.
    + intros (Hk & k & r & -> & Hn & Hs). repeat split; auto. now exists r.
    + intros (_ & Hk & r & Hn & Hs). split; [exact Hk|]. now exists i, r.
  - split; [|reflexivity]. intros i kind. split; [intros []|].
    intros (H & _). discriminate.
Qed.

Lemma initialClone_jobs_witness :
  true = true /\ "clone" = "clone" /\
  exists r, nth_error [Samples.site; Samples.docs] 1 = Some r /\
            Scenarios.only_site_cloned (Directory r) = false.
Proof.
  apply (proj1 (proj1 (initialClone_jobs true Scenarios.only_site_cloned
                         [Samples.site; Samples.docs]) 1%nat "clone")).
  now left.
Defined.

End RoutingFacts.

(** ** ConfigCoordinator and shutdown, continued *)

Module QuiescenceFacts.
Import Reload Config.

Lemma wait_idle_from (repos_at : nat -> list repo) (fuel : nat) :
  forall k0 k,
    wait_idle repos_at fuel k0 = Some k <->
    (k0 <= k <= k0 + fuel)%nat /\
    existsb Busy (repos_at k) = false /\
    forall j, (k0 <= j < k)%nat -> existsb Busy (repos_at j) = true.
Proof.
  induction fuel as [|fuel IH]; intros k0 k; cbn [wait_idle].
  - destruct (existsb Busy (repos_at k0)) eqn:Hb.
    + split; [discriminate|]. intros (Hk & Hidle & Hbusy).
      assert (k = k0) by lia. subst. congruence.
    + split.
      * intros H; inversion H; subst. split; [lia|]. split; [exact Hb|]. intros j Hj; lia.
      * intros (Hk & _ & _). f_equal. lia.
  - destruct (existsb Busy (repos_at k0)) eqn:Hb.
    + rewrite IH. split.
      * intros (Hk & Hidle & Hbusy). split; [lia|]. split; [exact Hidle|].
        intros j Hj. destruct (Nat.eq_dec j k0) as [->|]; [exact Hb|]. apply Hbusy. lia.
      * intros (Hk & Hidle & Hbusy).
        assert (k <> k0) by (intros ->; congruence).
        split; [lia|]. split; [exact Hidle|]. intros j Hj. apply Hbusy. lia.
    + split.
      * intros H; inversion H; subst. split; [lia|]. split; [exact Hb|]. intros j Hj; lia.
      * intros (Hk & _ & Hbusy). f_equal.
        destruct (Nat.eq_dec k k0) as [->|]; [reflexivity|].
        assert (existsb Busy (repos_at k0) = true) by (apply Hbusy; lia). congruence.
Qed.

(** The loop that waits for the repositories (before a configuration is
    installed, and before the process exits on a signal) ends at the first
    poll at which no repository of the active set is busy, after one 5s
    sleep for every earlier poll; it does not end while every poll finds a
    busy repository. *)
Theorem wait_idle_first_idle_poll
    (repos_at : nat -> list repo) (fuel : nat) :
  (forall k,
      wait_idle repos_at fuel 0 = Some k <->
      (k <= fuel)%nat /\
      existsb Busy (repos_at k) = false /\
      forall j, (j < k)%nat -> existsb Busy (repos_at j) = true) /\
  (wait_idle repos_at fuel 0 = None <->
   forall j, (j <= fuel)%nat -> existsb Busy (repos_at j) = true).
Proof.
  assert (Hsome : forall k,
             wait_idle repos_at fuel 0 = Some k <->
             (k <= fuel)%nat /\
             existsb Busy (repos_at k) = false /\
             forall j, (j < k)%nat -> existsb Busy (repos_at j) = true).
  { intros k. rewrite wait_idle_from. split.
    - intros (Hk & Hidle & Hbusy). split; [lia|]. split; [exact Hidle|].
      intros j Hj. apply Hbusy. lia.
    - intros (Hk & Hidle & Hbusy). split; [lia|]. split; [exact Hidle|].
      intros j Hj. apply Hbusy. lia. }
  split; [exact Hsome|]. split.
  - intros Hnone j Hj. induction j as [j IHj] using lt_wf_ind.
    destruct (existsb Busy (repos_at j)) eqn:Hb; [reflexivity|].
    assert (wait_idle repos_at fuel 0 = Some j) as Habs.
    { apply Hsome. split; [exact Hj|]. split; [exact Hb|]. intros i Hi. apply IHj; lia. }
    congruence.
  - intros Hbusy. destruct (wait_idle repos_at fuel 0) as [k|] eqn:Hw; [|reflexivity].
    apply wait_idle_from in Hw. destruct Hw as (Hk & Hidle & _).
    rewrite (Hbusy k) in Hidle by lia. discriminate.
Qed.

Lemma wait_idle_first_idle_poll_witness :
  wait_idle (repos_at Scenarios.change_while_busy) 5 0 = Some 2%nat.
Proof.
  apply (proj2 (proj1 (wait_idle_first_idle_poll
                         (repos_at Scenarios.change_while_busy) 5) 2%nat)).
  split; [lia|]. split; [reflexivity|].
  intros [|[|j]] Hj; [reflexivity|reflexivity|lia].
Defined.

Lemma saturate64_window (z : Z) :
  (saturate64 z <? 250229410) = (z <? 250229410).
Proof.
  unfold saturate64.
  destruct (Z.ltb_spec z 250229410), (Z.ltb_spec (Z.max (- 2 ^ 63) (Z.min (2 ^ 63 - 1) z)) 250229410);
    try reflexivity; lia.
Qed.

(** A configuration is installed only by a callback that found the mutex
    free, ran at least the debounce window after the last update, read the
    file, and reached a poll at which no repository was busy.  What it
    installs is the file's content with the repository defaults, stamped
    with the callback's clock; the old snapshot contributes nothing, the
    mutex is released and [passer.threads] holds the new limit. *)
Theorem install_is_gated_and_wholesale
    (fuel : nat) (e : notification) (s s' : state) :
  OnConfigChange fuel e s = (Installed, s') ->
  mutex s = false /\
  250229410 <= now e - LastUpdate (C s) /\
  exists newC0 k,
    unmarshal e = Some newC0 /\
    existsb Busy (repos_at e k) = false /\
    (forall j, (j < k)%nat -> existsb Busy (repos_at e j) = true) /\
    s' = mkState (mkConfig (Threads newC0) (now e)
                           (map setRepoDefault (Repos newC0)))
                 false (Threads newC0) (S (installs s)).
Proof.
  unfold OnConfigChange, Since. rewrite saturate64_window.
  destruct (mutex s); [discriminate|].
  destruct (Z.ltb_spec (now e - LastUpdate (C s)) 250229410) as [|Hgap]; [discriminate|].
  destruct (unmarshal e) as [newC0|]; [|discriminate].
  cbn [refreshTasks].
  destruct (wait_idle (repos_at e) fuel 0) as [k|] eqn:Hw; [|discriminate].
  intros Heq; inversion Heq; subst. split; [reflexivity|]. split; [lia|].
  exists newC0, k. apply wait_idle_from in Hw.
  destruct Hw as (_ & Hidle & Hbusy). split; [reflexivity|]. split; [exact Hidle|].
  split; [|reflexivity]. intros i Hi. apply Hbusy. lia.
Qed.

Lemma install_is_gated_and_wholesale_witness :
  mutex Samples.started = false /\
  250229410 <= now Scenarios.change_while_busy - LastUpdate (C Samples.started) /\
  exists newC0 k,
    unmarshal Scenarios.change_while_busy = Some newC0 /\
    existsb Busy (repos_at Scenarios.change_while_busy k) = false /\
    (forall j, (j < k)%nat ->
               existsb Busy (repos_at Scenarios.change_while_busy j) = true) /\
    snd (OnConfigChange 5 Scenarios.change_while_busy Samples.started)
    = mkState (mkConfig (Threads newC0) (now Scenarios.change_while_busy)
                        (map setRepoDefault (Repos newC0)))
              false (Threads newC0) (S (installs Samples.started)).
Proof.
  apply (install_is_gated_and_wholesale 5 Scenarios.change_while_busy Samples.started
           (snd (OnConfigChange 5 Scenarios.change_while_busy Samples.started))).
  vm_compute. reflexivity.
Defined.

Lemma deliver_locked (fuel : nat) (es : list notification) (s : state) :
  mutex s = true ->
  deliver fuel es s = (match es with [] => [] | _ :: _ => [BlockedOnLock] end, s).
Proof.
  intros H. destruct es as [|e es]; [reflexivity|].
  cbn [deliver]. unfold OnConfigChange. now rewrite H.
Qed.

(** A debounced notification changes nothing but the mutex, which it
    leaves locked; from then on every notification blocks and the state
    never changes again. *)
Theorem debounce_locks_out_reloads
    (fuel : nat) (e : notification) (s s' : state) :
  OnConfigChange fuel e s = (Debounced, s') ->
  C s' = C s /\ installs s' = installs s /\ mutex s' = true /\
  forall es,
    snd (deliver fuel es s') = s' /\
    forall o, In o (fst (deliver fuel es s')) -> o = BlockedOnLock.
Proof.
  unfold OnConfigChange.
  destruct (mutex s); [discriminate|].
  destruct (Since (now e) (LastUpdate (C s)) <? 250229410).
  - intros H; inversion H; subst. cbn [C installs mutex].
    repeat split; rewrite deliver_locked by reflexivity; [reflexivity|].
    destruct es; cbn [fst]; intros o Ho;
      [destruct Ho|destruct Ho as [<-|[]]; reflexivity].
  - destruct (unmarshal e); [|discriminate]. cbn [refreshTasks].
    destruct (wait_idle _ _ _); discriminate.
Qed.

Lemma debounce_locks_out_reloads_witness :
  C (snd (OnConfigChange 0 (Samples.change_at 100000000) Samples.started))
  = C Samples.started /\
  installs (snd (OnConfigChange 0 (Samples.change_at 100000000) Samples.started))
  = installs Samples.started /\
  mutex (snd (OnConfigChange 0 (Samples.change_at 100000000) Samples.started)) = true /\
  forall es,
    snd (deliver 0 es
           (snd (OnConfigChange 0 (Samples.change_at 100000000) Samples.started)))
    = snd (OnConfigChange 0 (Samples.change_at 100000000) Samples.started) /\
    forall o,
      In o (fst (deliver 0 es
                   (snd (OnConfigChange 0 (Samples.change_at 100000000)
                           Samples.started)))) ->
      o = BlockedOnLock.
Proof.
  apply (debounce_locks_out_reloads 0 (Samples.change_at 100000000) Samples.started).
  vm_compute. reflexivity.
Defined.

(** Changes of a readable file that each run at least the debounce window
    after the update before them, with no repository busy, are all
    installed, one install per change. *)
Theorem spaced_changes_all_install (fuel : nat) (es : list notification) :
  forall s,
    mutex s = false ->
    spaced (LastUpdate (C s)) es ->
    Forall ready es ->
    exists s',
      deliver fuel es s = (map (fun _ => Installed) es, s') /\
      installs s' = (installs s + List.length es)%nat /\
      mutex s' = false.
Proof.
  induction es as [|e es IH]; intros s Hm Hsp Hready; cbn [deliver map List.length].
  - exists s. rewrite Nat.add_0_r. now repeat split.
  - destruct Hsp as [Hgap Hsp]. inversion Hready as [|x l [Hfile Hidle] Hrest]; subst.
    unfold OnConfigChange, Since. rewrite saturate64_window, Hm.
    destruct (Z.ltb_spec (now e - LastUpdate (C s)) 250229410) as [Hlt|_]; [lia|].
    destruct (unmarshal e) as [newC0|]; [|congruence].
    cbn [refreshTasks].
    assert (wait_idle (repos_at e) fuel 0 = Some 0%nat) as ->
      by (destruct fuel; cbn [wait_idle]; now rewrite Hidle).
    destruct (IH (mkState (mkConfig (Threads newC0) (now e)
                                    (map setRepoDefault (Repos newC0)))
                          false (Threads newC0) (S (installs s))))
      as (s' & Hrun & Hinst & Hm'); [reflexivity|exact Hsp|exact Hrest|].
    rewrite Hrun. exists s'. cbn [installs] in Hinst. repeat split; [lia|exact Hm'].
Qed.

Lemma spaced_changes_all_install_witness :
  exists s',
    deliver 0 Scenarios.two_spaced_changes Samples.started
    = (map (fun _ => Installed) Scenarios.two_spaced_changes, s') /\
    installs s'
    = (installs Samples.started + List.length Scenarios.two_spaced_changes)%nat /\
    mutex s' = false.
Proof.
  apply (spaced_changes_all_install 0 Scenarios.two_spaced_changes Samples.started).
  - reflexivity.
  - cbn. lia.
  - repeat constructor; discriminate.
Defined.

(** *** Repository defaults *)



Lemma FindRepo_from_defaults (repos : list repo) (path : string) :
  forall r,
    Registry.FindRepo_from (map setRepoDefault repos) r path
    = Registry.FindRepo_from repos r path.
Proof.
  induction repos as [|rp rest IH]; intros r; cbn [map Registry.FindRepo_from];
    [reflexivity|].
  destruct (Registry.cleanURL path); [|reflexivity].
  cbn [setRepoDefault Path]. now rewrite IH.
Qed.

(** Applying the defaults does not change how request paths are routed, nor
    which duplicate paths are reported. *)
Theorem defaults_keep_routing (repos : list repo) (path : string) :
  Registry.FindRepo (map setRepoDefault repos) path = Registry.FindRepo repos path /\
  validatePathsUniq (map setRepoDefault repos) = validatePathsUniq repos.
Proof.
  split; [apply FindRepo_from_defaults|].
  unfold validatePathsUniq. generalize (@nil string).
  induction repos as [|rp rest IH]; intros paths; cbn [map validatePathsUniq_from];
    [reflexivity|].
  cbn [setRepoDefault Path]. now rewrite IH.
Qed.

End QuiescenceFacts.

(** ** Dispatcher, continued *)

Module DispatchFacts.
Import Engine EngineFacts Invariants.
#[local] Open Scope list_scope.

Lemma executing_holds_permit (a : nat) (g : goroutine) :
  executing a g = true -> holds_permit g = true.
Proof.
  unfold executing, holds_permit. destruct (at_pc g); try reflexivity;
    rewrite andb_false_r; discriminate.
Qed.

Lemma filter_length_le {A} (p q : A -> bool) (l : list A) :
  (forall x, p x = true -> q x = true) ->
  (List.length (filter p l) <= List.length (filter q l))%nat.
Proof.
  intros Hpq. induction l as [|x l IH]; cbn [filter]; [apply Nat.le_refl|].
  destruct (p x) eqn:Hp.
  - rewrite (Hpq x Hp). cbn [List.length]. lia.
  - destruct (q x); cbn [List.length]; lia.
Qed.

(** In every state reached from [main], the goroutines inside the clone or
    update of one record are no more than the [threads] value the process
    started with; with [threads = 1] no two executions overlap. *)
Theorem executing_within_startup_limit
    (threads : Z) (nrepos : nat) (ls : list label) (s : state) (a : nat) :
  launch threads nrepos ls = Some s ->
  Z.of_nat (executing_on s a) <= threads /\
  (threads = 1 -> (executing_on s a <= 1)%nat).
Proof.
  intros Hrun.
  assert (Hle : running s <= threads).
  { unfold launch, boot in Hrun.
    destruct (Z.ltb_spec threads 0) as [|Hpos]; [discriminate|].
    apply run_permits in Hrun.
    - destruct Hrun as [[Hr Hc] Hcap]. cbn [sem_cap] in Hcap. lia.
    - unfold permits_ok, running. cbn [gs sem_len sem_cap filter List.length]. lia. }
  assert (Z.of_nat (executing_on s a) <= running s) as Hex.
  { unfold executing_on, running. apply inj_le.
    apply filter_length_le. apply executing_holds_permit. }
  split; [lia|]. intros ->. lia.
Qed.

Lemma running_within_startup_limit_witness :
  exists s,
    launch 2 2 Samples.lower_threads_then_two_pushes = Some s /\
    running s <= 2 /\ sem_cap s = 2.
Proof.
  eexists. split; [vm_compute; reflexivity|].
  apply (running_within_startup_limit 2 2 Samples.lower_threads_then_two_pushes).
  vm_compute. reflexivity.
Defined.

Lemma executing_within_startup_limit_witness :
  exists s,
    launch 1 1 Scenarios.first_push_working = Some s /\
    Z.of_nat (executing_on s 0) <= 1 /\
    (1 = 1 -> (executing_on s 0 <= 1)%nat).
Proof.
  eexists. split; [vm_compute; reflexivity|].
  apply (executing_within_startup_limit 1 1 Scenarios.first_push_working).
  vm_compute. reflexivity.
Defined.

(** *** No permits *)

Lemma parked_step (s s' : state) (l : label) :
  parked s -> step s l = Some s' -> parked s'.
Proof.
  unfold parked. intros (Hcap & Hlen & Hgs & Hheap).
  destruct l as [idx|idx| |i|threads nrepos]; cbn [step].
  - unfold enqueue. destruct (nth_error (C_Repos s) idx); [|discriminate].
    destruct (100 <=? _)%nat; [discriminate|].
    intros H; inversion H; subst. now repeat split.
  - unfold enqueue. destruct (nth_error (C_Repos s) idx); [|discriminate].
    destruct (100 <=? _)%nat; [discriminate|].
    intros H; inversion H; subst. now repeat split.
  - destruct (jobs s) as [|j rest]; [discriminate|].
    intros H; inversion H; subst. cbn [sem_cap sem_len gs heap].
    repeat split; try assumption.
    apply Forall_app. split; [exact Hgs|]. now repeat constructor.
  - unfold step_goroutine. destruct (nth_error (gs s) i) as [g|] eqn:Hn; [|discriminate].
    apply nth_error_In in Hn. rewrite Forall_forall in Hgs. rewrite (Hgs g Hn).
    rewrite Hcap, Hlen. discriminate.
  - unfold config_change. destruct (existsb _ _); [discriminate|].
    intros H; inversion H; subst. cbn [sem_cap sem_len gs heap].
    repeat split; try assumption.
    apply Forall_app. split; [exact Hheap|]. apply Forall_forall.
    intros b Hb. now apply repeat_spec in Hb.
Qed.

Lemma parked_run (ls : list label) :
  forall s s', parked s -> run s ls = Some s' -> parked s'.
Proof.
  induction ls as [|l ls IH]; intros s s' Hp; cbn [run].
  - intros H; now inversion H; subst.
  - destruct (step s l) as [s1|] eqn:Hstep; [|discriminate].
    apply IH. exact (parked_step s s1 l Hp Hstep).
Qed.

(** With [threads = 0] the permit channel is unbuffered and nobody receives
    from it: whatever is pushed and dispatched, no goroutine ever gets past
    its send on [sem], so no clone or update starts and no flag is ever
    set. *)
Theorem zero_threads_runs_nothing
    (nrepos : nat) (ls : list label) (s : state) :
  launch 0 nrepos ls = Some s ->
  Forall (fun g => at_pc g = AtAcquire) (gs s) /\
  Forall (fun b => b = false) (heap s) /\
  running s = 0.
Proof.
  unfold launch. cbn [boot Z.ltb Z.compare]. intros Hrun.
  assert (Hp : parked s).
  { eapply (parked_run ls); [|exact Hrun]. unfold parked.
    cbn [sem_cap sem_len gs heap]. repeat split; [constructor|].
    apply Forall_forall. intros b Hb. now apply repeat_spec in Hb. }
  destruct Hp as (_ & _ & Hgs & Hheap). repeat split; [exact Hgs|exact Hheap|].
  unfold running. clear Hrun Hheap. induction (gs s) as [|g l IH]; [reflexivity|].
  inversion Hgs as [|x l' Hg Hl]; subst. cbn [filter]. unfold holds_permit at 1.
  rewrite Hg. now apply IH.
Qed.

Lemma zero_threads_runs_nothing_witness :
  exists s,
    launch 0 1 [Push 0; Push 0; Dispatch; Dispatch] = Some s /\
    Forall (fun g => at_pc g = AtAcquire) (gs s) /\
    Forall (fun b => b = false) (heap s) /\
    running s = 0.
Proof.
  eexists. split; [vm_compute; reflexivity|].
  apply (zero_threads_runs_nothing 1 [Push 0; Push 0; Dispatch; Dispatch]).
  vm_compute. reflexivity.
Defined.

(** *** A set flag has a worker *)

Lemma read_write_clear (h : list bool) :
  forall a, read (write h a false) a = false.
Proof.
  unfold read. induction h as [|x h IH]; intros [|a]; cbn [write nth]; auto.
Qed.

Lemma read_write_other (h : list bool) :
  forall a a' b, a <> a' -> read (write h a' b) a = read h a.
Proof.
  unfold read. induction h as [|x h IH]; intros [|a] [|a'] b Hne; cbn [write nth];
    try reflexivity; try congruence.
  apply IH. congruence.
Qed.

Lemma read_fresh (h : list bool) (n a : nat) :
  read (h ++ repeat false n) a = true -> read h a = true.
Proof.
  unfold read. revert a. induction h as [|x h IH]; intros a; cbn [app].
  - intros H. exfalso. revert a H. induction n as [|n IHn]; intros [|a]; cbn [repeat nth];
      try discriminate. apply IHn.
  - destruct a as [|a]; cbn [nth]; [auto|apply IH].
Qed.

Lemma replace_other (l : list goroutine) :
  forall i j g', i <> j ->
                 nth_error (replace_goroutine l i g') j = nth_error l j.
Proof.
  induction l as [|x l IH]; intros [|i] [|j] g' Hne; cbn [replace_goroutine nth_error];
    try reflexivity; try congruence.
  apply IH. congruence.
Qed.

Lemma replace_same (l : list goroutine) :
  forall i g g', nth_error l i = Some g ->
                 nth_error (replace_goroutine l i g') i = Some g'.
Proof.
  induction l as [|x l IH]; intros [|i] g g' Hn; cbn [replace_goroutine nth_error] in *;
    try discriminate; [reflexivity|]. now apply (IH i g).
Qed.

Lemma worker_kept (l : list goroutine) (i : nat) (g g' gw : goroutine) (a : nat) :
  nth_error l i = Some g ->
  In gw l -> executing a gw = true ->
  executing a g = false \/ executing a g' = true ->
  exists gw', In gw' (replace_goroutine l i g') /\ executing a gw' = true.
Proof.
  intros Hn Hin Hex Hcase. apply In_nth_error in Hin. destruct Hin as (j & Hj).
  destruct (Nat.eq_dec i j) as [<-|Hne].
  - assert (gw = g) by congruence. subst gw.
    destruct Hcase as [Hno|Hyes]; [congruence|].
    exists g'. split; [|exact Hyes].
    apply (nth_error_In _ i). now apply (replace_same l i g).
  - exists gw. split; [|exact Hex].
    apply (nth_error_In _ j). now rewrite replace_other.
Qed.

Lemma busy_has_worker_step (s s' : state) (l : label) :
  busy_has_worker s -> step s l = Some s' ->
  busy_has_worker s'.
Proof.
  unfold busy_has_worker. intros Hinv.
  destruct l as [idx|idx| |i|threads nrepos]; cbn [step].
  - unfold enqueue. destruct (nth_error (C_Repos s) idx); [|discriminate].
    destruct (100 <=? _)%nat; [discriminate|].
    intros H; inversion H; subst. exact Hinv.
  - unfold enqueue. destruct (nth_error (C_Repos s) idx); [|discriminate].
    destruct (100 <=? _)%nat; [discriminate|].
    intros H; inversion H; subst. exact Hinv.
  - destruct (jobs s) as [|j rest]; [discriminate|].
    intros H; inversion H; subst. cbn [heap gs]. intros a Ha.
    destruct (Hinv a Ha) as (g & Hg & Hex). exists g. split; [|exact Hex].
    apply in_or_app. now left.
  - unfold step_goroutine. destruct (nth_error (gs s) i) as [g|] eqn:Hn; [|discriminate].
    assert (Hpc : forall a, executing a g
                  = Nat.eqb (job_repo (its_job g)) a &&
                    match at_pc g with InWork | AtFinished => true | _ => false end)
      by reflexivity.
    destruct (at_pc g) eqn:Hat;
      repeat match goal with
             | |- context [if ?b then _ else _] => destruct b eqn:?
             end;
      intros H; inversion H; subst; clear H; cbn [heap gs]; intros a Ha;
      try (destruct (Hinv a Ha) as (gw & Hgw & Hex);
           apply (worker_kept (gs s) i g _ gw a Hn Hgw Hex);
           left; rewrite Hpc; apply andb_false_r).
    + destruct (Nat.eq_dec a (job_repo (its_job g))) as [->|Hne].
      * eexists. split; [eapply nth_error_In; eapply replace_same; exact Hn|].
        unfold executing. cbn [its_job at_pc]. now rewrite Nat.eqb_refl.
      * rewrite read_write_other in Ha by exact Hne.
        destruct (Hinv a Ha) as (gw & Hgw & Hex).
        apply (worker_kept (gs s) i g _ gw a Hn Hgw Hex).
        left. rewrite Hpc. apply andb_false_r.
    + destruct (Hinv a Ha) as (gw & Hgw & Hex).
      apply (worker_kept (gs s) i g _ gw a Hn Hgw Hex).
      unfold executing at 2. cbn [its_job at_pc]. rewrite Hpc.
      destruct (Nat.eqb (job_repo (its_job g)) a); [now right|now left].
    + destruct (Nat.eq_dec a (job_repo (its_job g))) as [->|Hne];
        [now rewrite read_write_clear in Ha|].
      rewrite read_write_other in Ha by exact Hne.
      destruct (Hinv a Ha) as (gw & Hgw & Hex).
      apply (worker_kept (gs s) i g _ gw a Hn Hgw Hex).
      left. rewrite Hpc. apply Nat.eqb_neq in Hne. rewrite Nat.eqb_sym in Hne.
      now rewrite Hne.
  - unfold config_change. destruct (existsb _ _); [discriminate|].
    intros H; inversion H; subst. cbn [heap gs]. intros a Ha.
    apply read_fresh in Ha. exact (Hinv a Ha).
Qed.

Lemma busy_has_worker_run (ls : list label) :
  forall s s', busy_has_worker s -> run s ls = Some s' -> busy_has_worker s'.
Proof.
  induction ls as [|l ls IH]; intros s s' Hp; cbn [run].
  - intros H; now inversion H; subst.
  - destruct (step s l) as [s1|] eqn:Hstep; [|discriminate].
    apply IH. exact (busy_has_worker_step s s1 l Hp Hstep).
Qed.

(** A flag that is set always has a goroutine inside its clone or update of
    that record: no flag is left set by a goroutine that has finished, so
    the waits for idle repositories are not held up by stale flags. *)
Theorem set_flag_has_a_worker
    (threads : Z) (nrepos : nat) (ls : list label) (s : state) (a : nat) :
  launch threads nrepos ls = Some s ->
  read (heap s) a = true ->
  (1 <= executing_on s a)%nat.
Proof.
  unfold launch, boot. destruct (threads <? 0); [discriminate|]. intros Hrun Ha.
  assert (Hinv : busy_has_worker s).
  { eapply (busy_has_worker_run ls); [|exact Hrun].
    intros b Hb. cbn [heap] in Hb. rewrite <- (app_nil_l (repeat false nrepos)) in Hb.
    apply read_fresh in Hb. now destruct b. }
  destruct (Hinv a Ha) as (g & Hg & Hex). unfold executing_on.
  assert (In g (filter (executing a) (gs s))) as Hin by (apply filter_In; now split).
  destruct (filter (executing a) (gs s)); [destruct Hin|cbn [List.length]; lia].
Qed.

Lemma set_flag_has_a_worker_witness :
  exists s,
    launch 5 1 Scenarios.first_push_working = Some s /\
    (1 <= executing_on s 0)%nat.
Proof.
  eexists. split; [vm_compute; reflexivity|].
  apply (set_flag_has_a_worker 5 1 Scenarios.first_push_working).
  - vm_compute. reflexivity.
  - reflexivity.
Defined.

(** *** Order of dispatch *)

Lemma replace_keeps_jobs (l : list goroutine) :
  forall i g p, nth_error l i = Some g ->
                map its_job (replace_goroutine l i (mkGoroutine (its_job g) p))
                = map its_job l.
Proof.
  induction l as [|x l IH]; intros [|i] g p Hn; cbn [replace_goroutine map nth_error] in *;
    try discriminate.
  - now inversion Hn; subst.
  - now rewrite (IH i g p Hn).
Qed.

Lemma in_order_step (s s' : state) (l : label) :
  step s l = Some s' ->
  exists added, in_order s' = in_order s ++ added /\ (List.length added <= 1)%nat.
Proof.
  unfold in_order. destruct l as [idx|idx| |i|threads nrepos]; cbn [step].
  - unfold enqueue. destruct (nth_error (C_Repos s) idx) as [a|]; [|discriminate].
    destruct (100 <=? _)%nat; [discriminate|].
    intros H; inversion H; subst. cbn [gs jobs]. eexists. rewrite app_assoc.
    split; [reflexivity|cbn [List.length]; lia].
  - unfold enqueue. destruct (nth_error (C_Repos s) idx) as [a|]; [|discriminate].
    destruct (100 <=? _)%nat; [discriminate|].
    intros H; inversion H; subst. cbn [gs jobs]. eexists. rewrite app_assoc.
    split; [reflexivity|cbn [List.length]; lia].
  - destruct (jobs s) as [|j rest]; [discriminate|].
    intros H; inversion H; subst. cbn [gs jobs]. exists [].
    rewrite map_app, <- app_assoc, app_nil_r. cbn [map its_job app].
    split; [reflexivity|cbn [List.length]; lia].
  - unfold step_goroutine. destruct (nth_error (gs s) i) as [g|] eqn:Hn; [|discriminate].
    destruct (at_pc g);
      repeat match goal with
             | |- context [if ?b then _ else _] => destruct b
             end;
      intros H; inversion H; subst; clear H; cbn [gs jobs];
      exists []; rewrite (replace_keeps_jobs _ _ _ _ Hn), app_nil_r;
      (split; [reflexivity|cbn [List.length]; lia]).
  - unfold config_change. destruct (existsb _ _); [discriminate|].
    intros H; inversion H; subst. cbn [gs jobs]. exists []. rewrite app_nil_r.
    split; [reflexivity|cbn [List.length]; lia].
Qed.

(** Jobs leave the channel in the order they were put on it, and none is
    lost or repeated: along every run, the list of the jobs already given
    to a goroutine followed by the jobs still queued only grows at its
    end. *)
Theorem dispatch_is_fifo (ls : list label) :
  forall s s',
    run s ls = Some s' ->
    exists added, in_order s' = in_order s ++ added /\
                  (List.length added <= List.length ls)%nat.
Proof.
  induction ls as [|l ls IH]; intros s s'; cbn [run].
  - intros H; inversion H; subst. exists []. now rewrite app_nil_r.
  - destruct (step s l) as [s1|] eqn:Hstep; [|discriminate]. intros Hrun.
    destruct (in_order_step s s1 l Hstep) as (a1 & H1 & Hl1).
    destruct (IH s1 s' Hrun) as (a2 & H2 & Hl2).
    exists (a1 ++ a2). rewrite H2, H1, <- app_assoc. split; [reflexivity|].
    rewrite List.length_app. cbn [List.length]. lia.
Qed.

Lemma dispatch_is_fifo_witness :
  exists added,
    in_order (mkState [false] [0%nat] 5 5 5 1
                      [mkJob 0 "update"] [mkGoroutine (mkJob 0 "update") AtCheck])
    = in_order (mkState [false] [0%nat] 5 5 5 0 [mkJob 0 "update"] []) ++ added /\
    (List.length added <= List.length [Push 0; Dispatch; Run 0])%nat.
Proof.
  apply (dispatch_is_fifo [Push 0; Dispatch; Run 0]). vm_compute. reflexivity.
Defined.

End DispatchFacts.

(** ** SyncWorker, continued: all runs *)

Module RunFacts.
Import Worker WorkerFacts FetchFacts UpdateFacts Runs.
#[local] Open Scope list_scope.

Lemma set_Busy_twice (b b' : bool) (r : repo) :
  set_Busy b (set_Busy b' r) = set_Busy b r.
Proof. reflexivity. Qed.

Lemma bind_waiting {A B} (m : M A) (k : A -> M B) (s s1 : state) :
  m s = (Waiting, s1) -> bind m k s = (Waiting, s1).
Proof. intros H. unfold bind. now rewrite H. Qed.

Lemma count_idle (p : event -> bool) (evs : list event) :
  (forall e, idle e = true -> p e = false) ->
  forallb idle evs = true -> count p evs = 0%nat.
Proof.
  intros Hp. induction evs as [|e evs IH]; cbn [forallb]; [reflexivity|].
  intros H. apply andb_prop in H. destruct H as [He Hevs].
  rewrite count_cons, (Hp e He), (IH Hevs). reflexivity.
Qed.

Lemma waits_idle (k : nat) : forallb idle (waits k) = true.
Proof. induction k as [|k IH]; [reflexivity|exact IH]. Qed.

Lemma In_idle (evs : list event) (e : event) :
  forallb idle evs = true -> In e evs -> idle e = true.
Proof. intros H Hin. rewrite forallb_forall in H. now apply H. Qed.

Lemma wait_exact (w : world) (fuel : nat) :
  forall k0 s j,
    (j <= fuel)%nat ->
    flag_from w k0 s j = false ->
    (forall i, (i < j)%nat -> flag_from w k0 s i = true) ->
    waitForCompletion w fuel k0 s
    = (Next tt, mkState (set_Busy false (self s)) (trace s ++ waits j)).
Proof.
  induction fuel as [|fuel IH]; intros k0 s j Hj Hclear Hset.
  - assert (j = 0%nat) by lia. subst j. cbn [flag_from] in Hclear.
    rewrite waitForCompletion_clear by exact Hclear. cbn [waits].
    now rewrite app_nil_r, <- Hclear, set_Busy_same, state_eta.
  - destruct j as [|j].
    + cbn [flag_from] in Hclear. rewrite waitForCompletion_clear by exact Hclear.
      cbn [waits]. now rewrite app_nil_r, <- Hclear, set_Busy_same, state_eta.
    + pose proof (Hset 0%nat ltac:(lia)) as H0. cbn [flag_from] in H0.
      cbn [waitForCompletion]. rewrite H0. cbn [bind log emit assign_Busy self trace].
      rewrite (IH (S k0) _ j); [| lia | |].
      * cbn [self trace waits]. rewrite set_Busy_twice, <- !app_assoc. reflexivity.
      * destruct j as [|j]; cbn [flag_from self Busy set_Busy] in *.
        -- now rewrite Nat.add_0_r in Hclear.
        -- now rewrite Nat.add_succ_r in Hclear.
      * intros i Hi. pose proof (Hset (S i) ltac:(lia)) as Hi'.
        destruct i as [|i]; cbn [flag_from self Busy set_Busy] in *.
        -- now rewrite Nat.add_0_r in Hi'.
        -- now rewrite Nat.add_succ_r in Hi'.
Qed.

Lemma wait_stuck (w : world) (fuel : nat) :
  forall k0 s,
    (forall i, (i <= fuel)%nat -> flag_from w k0 s i = true) ->
    waitForCompletion w fuel k0 s
    = (Waiting, mkState (set_Busy true (self s)) (trace s ++ waits fuel)).
Proof.
  induction fuel as [|fuel IH]; intros k0 s Hset;
    pose proof (Hset 0%nat ltac:(lia)) as H0; cbn [flag_from] in H0;
    cbn [waitForCompletion]; rewrite H0.
  - cbn [waits]. now rewrite app_nil_r, <- H0, set_Busy_same, state_eta.
  - cbn [bind log emit assign_Busy self trace].
    rewrite (IH (S k0)).
    + cbn [self trace waits]. rewrite set_Busy_twice, <- !app_assoc. reflexivity.
    + intros i Hi. pose proof (Hset (S i) ltac:(lia)) as Hi'.
      destruct i as [|i]; cbn [flag_from self Busy set_Busy] in *.
      * now rewrite Nat.add_0_r in Hi'.
      * now rewrite Nat.add_succ_r in Hi'.
Qed.

(** Every wait ends clear after some number of sleeps, or is still
    waiting with the flag set after [fuel] of them. *)
Lemma wait_any (w : world) (fuel k0 : nat) (s : state) :
  exists j,
    (j <= fuel)%nat /\
    (waitForCompletion w fuel k0 s
     = (Next tt, mkState (set_Busy false (self s)) (trace s ++ waits j)) \/
     waitForCompletion w fuel k0 s
     = (Waiting, mkState (set_Busy true (self s)) (trace s ++ waits j))).
Proof.
  assert (Hdec : forall n, (forall i, (i <= n)%nat -> flag_from w k0 s i = true) \/
                           exists j, (j <= n)%nat /\ flag_from w k0 s j = false /\
                                     forall i, (i < j)%nat -> flag_from w k0 s i = true).
  { induction n as [|n [Hall|(j & Hj & Hc & Hs)]].
    - destruct (flag_from w k0 s 0) eqn:H0.
      + left. intros i Hi. assert (i = 0%nat) by lia. now subst.
      + right. exists 0%nat. repeat split; [lia|exact H0|intros i Hi; lia].
    - destruct (flag_from w k0 s (S n)) eqn:Hn.
      + left. intros i Hi. destruct (Nat.eq_dec i (S n)) as [->|]; [exact Hn|].
        apply Hall. lia.
      + right. exists (S n). repeat split; [lia|exact Hn|]. intros i Hi. apply Hall. lia.
    - right. exists j. repeat split; [lia|exact Hc|exact Hs]. }
  destruct (Hdec fuel) as [Hall|(j & Hj & Hc & Hs)].
  - exists fuel. split; [lia|]. right. now apply wait_stuck.
  - exists j. split; [exact Hj|]. left. now apply wait_exact.
Qed.

(** [waitForCompletion] returns at the first check that finds the flag
    clear, having logged a warning and slept 3s once for every earlier
    check, and it changes nothing else. *)
Theorem waitForCompletion_first_clear
    (w : world) (fuel : nat) (s : state) (k : nat) :
  (k <= fuel)%nat ->
  flag_at w s k = false ->
  (forall j, (j < k)%nat -> flag_at w s j = true) ->
  waitForCompletion w fuel 0 s
  = (Next tt, mkState (set_Busy false (self s)) (trace s ++ waits k)).
Proof. intros Hk Hclear Hset. now apply wait_exact. Qed.

(** While every check finds the flag set, [clone] and [update] do nothing
    but warn and sleep: no ssh key is loaded, no git or filesystem call is
    made, and the flag is left set. *)
Theorem held_flag_blocks_work (w : world) (fuel : nat) (s : state) :
  (forall j, (j <= fuel)%nat -> flag_at w s j = true) ->
  clone w fuel s
  = (Waiting, mkState (set_Busy true (self s)) (trace s ++ waits fuel)) /\
  update w fuel s
  = (Waiting, mkState (set_Busy true (self s)) (trace s ++ waits fuel)).
Proof.
  intros Hset. pose proof (wait_stuck w fuel 0 s Hset) as Hrun.
  unfold clone, update, with_defer.
  now rewrite !bind_get_self, !(bind_waiting _ _ _ _ Hrun).
Qed.

Lemma waitForCompletion_first_clear_witness :
  waitForCompletion Scenarios.released_in_third_sleep 5 0 Samples.site_in_use
  = (Next tt, mkState (set_Busy false (self Samples.site_in_use))
                      (trace Samples.site_in_use ++ waits 3)).
Proof.
  apply (waitForCompletion_first_clear
           Scenarios.released_in_third_sleep 5 Samples.site_in_use 3).
  - lia.
  - reflexivity.
  - intros [|[|[|j]]] Hj; [reflexivity|reflexivity|reflexivity|lia].
Defined.

Lemma held_flag_blocks_work_witness :
  clone Scenarios.held_forever 2 Samples.site_in_use
  = (Waiting, mkState (set_Busy true (self Samples.site_in_use))
                      (trace Samples.site_in_use ++ waits 2)) /\
  update Scenarios.held_forever 2 Samples.site_in_use
  = (Waiting, mkState (set_Busy true (self Samples.site_in_use))
                      (trace Samples.site_in_use ++ waits 2)).
Proof.
  apply (held_flag_blocks_work Scenarios.held_forever 2 Samples.site_in_use).
  intros [|j] Hj; reflexivity.
Defined.

(** *** The fetch loop, whatever the remote answers *)

Lemma fetch_loop_any (w : world) (r : repo) (n : nat) :
  forall i s,
    exists evs,
      (fetch_loop w r n i s = (Next tt, mkState (self s) (trace s ++ evs)) \/
       fetch_loop w r n i s = (Returned, mkState (self s) (trace s ++ evs))) /\
      forallb fetch_phase evs = true /\
      (count is_fetch evs <= n)%nat.
Proof.
  induction n as [|n IH]; intros i s; cbn [fetch_loop].
  - exists []. rewrite app_nil_r, state_eta. repeat split; [now left|apply Nat.le_0_l].
  - unfold do_fetch. cbn [bind log emit ret self trace].
    destruct (fetch w i).
    + eexists. cbn [ret]. rewrite <- !app_assoc. split; [left; reflexivity|].
      split; [reflexivity|]. cbn [app]. rewrite !count_cons, count_nil. cbn [is_fetch]. lia.
    + eexists. cbn [bind log emit return_ self trace]. rewrite <- !app_assoc.
      split; [right; reflexivity|]. split; [reflexivity|].
      cbn [app]. rewrite !count_cons, count_nil. cbn [is_fetch]. lia.
    + cbn [bind log emit self trace].
      destruct (IH (i + 1) (mkState (self s)
                  ((((trace s ++ [Log Info "Fetch attempt: "]) ++ [GitFetch (Remote r)])
                      ++ [Log Error "Failed to fetch updates: %v"])
                     ++ [TimeSleep (wrap64 (RetryDelay w * Second))])))
        as (evs & Hrun & Hphase & Hcount).
      exists ([Log Info "Fetch attempt: "; GitFetch (Remote r);
               Log Error "Failed to fetch updates: %v";
               TimeSleep (wrap64 (RetryDelay w * Second))] ++ evs).
      split; [|split].
      * destruct Hrun as [Hrun|Hrun]; [left|right]; rewrite Hrun; cbn [self trace];
          rewrite <- !app_assoc; reflexivity.
      * cbn [app forallb fetch_phase idle is_fetch orb andb]. exact Hphase.
      * cbn [app]. rewrite !count_cons. cbn [is_fetch]. lia.
Qed.

Lemma count_phase (p : event -> bool) (evs : list event) :
  (forall e, fetch_phase e = true -> p e = false) ->
  forallb fetch_phase evs = true -> count p evs = 0%nat.
Proof.
  intros Hp. induction evs as [|e evs IH]; cbn [forallb]; [reflexivity|].
  intros H. apply andb_prop in H. destruct H as [He Hevs].
  rewrite count_cons, (Hp e He), (IH Hevs). reflexivity.
Qed.

Lemma In_phase (evs : list event) (e : event) :
  forallb fetch_phase evs = true -> In e evs -> fetch_phase e = true.
Proof. intros H Hin. rewrite forallb_forall in H. now apply H. Qed.

Lemma waits_counts (j : nat) :
  count is_fetch (waits j) = 0%nat /\ count is_reference (waits j) = 0%nat /\
  count is_reset (waits j) = 0%nat /\ count is_touch (waits j) = 0%nat /\
  count is_clone (waits j) = 0%nat /\ count is_ssh (waits j) = 0%nat.
Proof.
  repeat split; apply count_idle; try apply waits_idle; intros []; cbn; congruence.
Qed.

Lemma phase_counts (evs : list event) :
  forallb fetch_phase evs = true ->
  count is_reference evs = 0%nat /\ count is_reset evs = 0%nat /\
  count is_touch evs = 0%nat /\ count is_clone evs = 0%nat /\
  count is_ssh evs = 0%nat.
Proof.
  intros H. repeat split; apply count_phase; try exact H; intros []; cbn; congruence.
Qed.

(** Runs a worker to each of its ends, splitting on every answer of the
    world. *)
Ltac split_on_answers :=
  repeat
    (exec; cbn [fst snd]; rewrite ?HasTrigger_set_Busy;
     match goal with
     | |- context [bind (fetch_loop ?w ?r ?n ?i) ?k ?st] =>
         let evs := fresh "fetched" in
         let HL := fresh "Hloop" in
         let Hp := fresh "Hphase" in
         let Hc := fresh "Hattempts" in
         destruct (fetch_loop_any w r n i st) as (evs & [HL|HL] & Hp & Hc);
         [rewrite (bind_next _ _ _ _ _ HL)|rewrite (bind_returned _ _ _ _ HL)]
     | |- context [call (touchTrigger _) _] => unfold call, touchTrigger
     | |- context [if ?b then _ else _] => destruct b eqn:?
     | |- context [match ?x with Some _ => _ | None => _ end] => destruct x eqn:?
     end);
  exec; unfold finished, assign_Busy; cbn [fst snd self trace].

Ltac tally :=
  rewrite ?count_app, ?count_cons, ?count_nil;
  repeat match goal with
         | |- context [count _ (waits ?j)] =>
             let Ha := fresh in let Hb := fresh in let Hc := fresh in
             let Hd := fresh in let He := fresh in let Hf := fresh in
             destruct (waits_counts j) as (Ha & Hb & Hc & Hd & He & Hf);
             rewrite ?Ha, ?Hb, ?Hc, ?Hd, ?He, ?Hf; clear Ha Hb Hc Hd He Hf
         end;
  repeat match goal with
         | Hp : forallb fetch_phase ?evs = true |- _ =>
             let Ha := fresh in let Hb := fresh in let Hc := fresh in
             let Hd := fresh in let He := fresh in
             destruct (phase_counts evs Hp) as (Ha & Hb & Hc & Hd & He);
             rewrite ?Ha, ?Hb, ?Hc, ?Hd, ?He; clear Ha Hb Hc Hd He;
             change (id (forallb fetch_phase evs = true)) in Hp
         end;
  unfold id in *;
  cbn [is_fetch is_reference is_reset is_touch is_clone is_ssh];
  try lia.

Ltac in_cases H :=
  rewrite ?in_app_iff in H; cbn [In] in H;
  repeat match goal with
         | H' : _ \/ _ |- _ => destruct H'
         | H' : False |- _ => destruct H'
         | H' : In _ (waits _) |- _ =>
             apply (In_idle _ _ (waits_idle _)) in H'; discriminate H'
         | H' : In _ ?evs, Hp : forallb fetch_phase ?evs = true |- _ =>
             apply (In_phase _ _ Hp) in H'; discriminate H'
         end;
  try discriminate.

(** Whatever the collaborators answer, [clone] calls [git.PlainClone] at
    most once (never when the ssh key fails to load), always for the
    record's directory, URL and tracked reference; it never fetches or
    resets; and it touches the trigger only after both the key and the
    clone succeeded. *)
Theorem clone_is_single_shot (w : world) (fuel : nat) (r : repo) :
  (count is_clone (events_of (clone w fuel) r) <= 1)%nat /\
  count is_fetch (events_of (clone w fuel) r) = 0%nat /\
  count is_reset (events_of (clone w fuel) r) = 0%nat /\
  (forall d u ref,
      In (GitPlainClone d u ref) (events_of (clone w fuel) r) ->
      ssh_ok w = true /\ d = Directory r /\ u = URL r /\ ref = clone_ref r) /\
  ((0 < count is_touch (events_of (clone w fuel) r))%nat ->
   ssh_ok w = true /\ clone_ok w = true /\ HasTrigger r = true).
Proof.
  unfold events_of, clone, with_defer, clone_ref. rewrite bind_get_self.
  destruct (wait_any w fuel 0 (mkState r [])) as (j & Hj & [Hrun|Hrun]);
    [rewrite (bind_next _ _ _ _ _ Hrun)|rewrite (bind_waiting _ _ _ _ Hrun)];
    split_on_answers;
    (split; [tally|split; [tally|split; [tally|split]]]);
    try (intros d u ref Hin; in_cases Hin;
         match goal with
         | H' : GitPlainClone _ _ _ = GitPlainClone _ _ _ |- _ =>
             inversion H'; subst; now repeat split
         end);
    first [ solve [intros _; repeat split; reflexivity]
          | solve [intros Hpos; exfalso; revert Hpos; tally] ].
Qed.

Lemma clone_is_single_shot_witness :
  ssh_ok Scenarios.behind_branch = true /\
  clone_ok Scenarios.behind_branch = true /\
  HasTrigger Samples.site = true.
Proof.
  apply (proj2 (proj2 (proj2 (proj2
           (clone_is_single_shot Scenarios.behind_branch 0 Samples.site))))).
  vm_compute. lia.
Defined.

Ltac find_in :=
  repeat first [ left; reflexivity | right | apply in_or_app; right ].

Ltac open_update w fuel r j Hj Hrun :=
  unfold events_of, update, with_defer; rewrite bind_get_self;
  destruct (wait_any w fuel 0 (mkState r [])) as (j & Hj & [Hrun|Hrun]);
  [rewrite (bind_next _ _ _ _ _ Hrun)|rewrite (bind_waiting _ _ _ _ Hrun)].

(** Whatever the collaborators answer, [update] loads the ssh key at most
    once, makes at most [retry_count] fetch attempts (none when it is zero
    or negative) and at most one hard reset. *)
Theorem update_attempts_are_bounded (w : world) (fuel : nat) (r : repo) :
  (count is_ssh (events_of (update w fuel) r) <= 1)%nat /\
  (count is_fetch (events_of (update w fuel) r) <= Z.to_nat (RetryCount w))%nat /\
  (count is_reset (events_of (update w fuel) r) <= 1)%nat.
Proof.
  open_update w fuel r j Hj Hrun; split_on_answers;
    (split; [tally|split; tally]).
Qed.

(** Whatever the collaborators answer, [update] touches the trigger file
    only when a trigger is configured and only after a hard reset that
    succeeded and left HEAD at the commit it was reset to. *)
Theorem update_touches_only_after_verified_reset
    (w : world) (fuel : nat) (r : repo) :
  (0 < count is_touch (events_of (update w fuel) r))%nat ->
  HasTrigger r = true /\
  exists c,
    In (GitReset c) (events_of (update w fuel) r) /\
    reset_ok w c = true /\
    reference_after w c "HEAD" = Some c.
Proof.
  open_update w fuel r j Hj Hrun; split_on_answers;
    try solve [intros Hpos; exfalso; revert Hpos; tally];
    intros _; (split; [reflexivity|]);
    rewrite <- ?app_assoc; cbn [app];
    eexists; (split; [find_in|]); (split; [eassumption|]);
    match goal with
    | H : (_ =? _)%N = true |- _ => apply N.eqb_eq in H; subst
    end; assumption.
Qed.

Lemma update_touches_only_after_verified_reset_witness :
  HasTrigger Samples.site = true /\
  exists c,
    In (GitReset c) (events_of (update Scenarios.behind_branch 0) Samples.site) /\
    reset_ok Scenarios.behind_branch c = true /\
    reference_after Scenarios.behind_branch c "HEAD" = Some c.
Proof.
  apply (update_touches_only_after_verified_reset
           Scenarios.behind_branch 0 Samples.site).
  vm_compute. lia.
Defined.

(** A failure before the fetch loop (ssh key, opening the repository or
    its work tree) ends [update] before any fetch or reference read; those
    failures and a failure to resolve the tracked reference or HEAD end it
    without a reset and without touching the trigger. *)
Theorem update_failure_changes_nothing (w : world) (fuel : nat) (r : repo) :
  (ssh_ok w = false \/ open_ok w = false \/ worktree_ok w = false ->
   count is_fetch (events_of (update w fuel) r) = 0%nat /\
   count is_reference (events_of (update w fuel) r) = 0%nat) /\
  (ssh_ok w = false \/ open_ok w = false \/ worktree_ok w = false \/
   reference_before w (tracked_ref r) = None \/
   reference_before w "HEAD" = None ->
   count is_reset (events_of (update w fuel) r) = 0%nat /\
   count is_touch (events_of (update w fuel) r) = 0%nat).
Proof.
  open_update w fuel r j Hj Hrun; split_on_answers;
    (split;
     [ intros [H|[H|H]]; try discriminate H; split; tally
     | intros [H|[H|[H|[H|H]]]]; try discriminate H; split; tally ]).
Qed.

Lemma update_failure_changes_nothing_witness :
  count is_fetch (events_of (update Samples.no_ssh_key 1) Samples.site) = 0%nat /\
  count is_reference (events_of (update Samples.no_ssh_key 1) Samples.site) = 0%nat.
Proof.
  apply (proj1 (update_failure_changes_nothing Samples.no_ssh_key 1 Samples.site)).
  left. reflexivity.
Defined.



End RunFacts.

(** ** SyncWorker, continued: the paths of Update *)

Module PathFacts.
Import Worker WorkerFacts FetchFacts UpdateFacts Runs.
#[local] Open Scope list_scope.

(** When the tracked reference resolves to the hash HEAD already has,
    [update] reports "Already up to date" and returns: no reset, no trigger
    touch. *)
Theorem update_noop_when_head_matches
    (w : world) (fuel : nat) (s : state) (k : nat) (h : Hash) :
  wait_ends w fuel s ->
  ssh_ok w = true -> open_ok w = true -> worktree_ok w = true ->
  fetch_passes w k ->
  reference_before w (tracked_ref (self s)) = Some h ->
  reference_before w "HEAD" = Some h ->
  exists s' pre,
    update w fuel s = (Next tt, s') /\
    Busy (self s') = false /\
    trace s' = trace s ++ pre ++ [Log Warning "Already up to date"] /\
    count is_reset pre = 0%nat /\
    count is_touch pre = 0%nat.
Proof.
  intros Hw Hssh Hopen Hwt Hloop Href Hhead.
  destruct (wait_ends_run w fuel s Hw) as (evs1 & Hrun & Hq).
  pose proof (N.eqb_refl h) as Hcmp.
  destruct (tag_object w h) as [t|] eqn:Htag;
    (eexists; exists (evs1 ++ before_reset w (self s) k h);
     split;
     [ unfold update; eapply with_defer_run; [to_reset Hrun Hloop; reflexivity|discriminate]
     | split; [reflexivity|];
       split; [|split; counts];
       unfold before_reset, passing_fetches, opening; rewrite Htag;
       exec; rewrite <- !app_assoc; reflexivity ]).
Qed.

Lemma update_noop_when_head_matches_witness :
  exists s' pre,
    update Scenarios.level_with_branch 0 (mkState Samples.site []) = (Next tt, s') /\
    Busy (self s') = false /\
    trace s' = [] ++ pre ++ [Log Warning "Already up to date"] /\
    count is_reset pre = 0%nat /\
    count is_touch pre = 0%nat.
Proof.
  apply (update_noop_when_head_matches
           Scenarios.level_with_branch 0 (mkState Samples.site []) 0 7%N).
  - exists 0%nat. split; [lia|reflexivity].
  - reflexivity.
  - reflexivity.
  - reflexivity.
  - split; [intros i Hi; lia|]. left. split; [simpl; lia|reflexivity].
  - reflexivity.
  - reflexivity.
Defined.

(** When the reset succeeds and HEAD is then at the target hash, [update]
    confirms the change and, with a trigger configured and [os.Chtimes]
    succeeding, ends by touching the trigger file once. *)
Theorem update_success_touches_trigger
    (w : world) (fuel : nat) (s : state) (k : nat) (h l : Hash) :
  wait_ends w fuel s ->
  ssh_ok w = true -> open_ok w = true -> worktree_ok w = true ->
  fetch_passes w k ->
  reference_before w (tracked_ref (self s)) = Some h ->
  reference_before w "HEAD" = Some l ->
  l <> h ->
  reset_ok w (target_hash w h) = true ->
  reference_after w (target_hash w h) "HEAD" = Some (target_hash w h) ->
  HasTrigger (self s) = true ->
  chtimes_ok w = true ->
  exists s' pre,
    update w fuel s = (Next tt, s') /\
    Busy (self s') = false /\
    trace s' = trace s ++ pre ++
               [GitReset (target_hash w h);
                Log Info "Hard reset successful, confirming changes....";
                GitReference "HEAD";
                Log Info "Changes confirmed, latest hash: %v";
                OsChtimes (Trigger (self s));
                Log Info "Successfully updated trigger file"] /\
    count is_reset pre = 0%nat /\
    count is_touch pre = 0%nat.
Proof.
  intros Hw Hssh Hopen Hwt Hloop Href Hhead Hne Hreset Hafter Htrig Hch.
  destruct (wait_ends_run w fuel s Hw) as (evs1 & Hrun & Hq).
  assert (Hcmp : (h =? l)%N = false) by (apply N.eqb_neq; congruence).
  unfold target_hash in *.
  destruct (tag_object w h) as [t|] eqn:Htag;
    [pose proof (N.eqb_refl (Target t)) as Hsame
    |pose proof (N.eqb_refl h) as Hsame];
    (eexists; exists (evs1 ++ before_reset w (self s) k h);
     split;
     [ unfold update; eapply with_defer_run;
       [to_reset Hrun Hloop; after_reset; reflexivity|discriminate]
     | split; [reflexivity|];
       split; [|split; counts];
       unfold before_reset, passing_fetches, opening; rewrite Htag;
       exec; rewrite <- !app_assoc; reflexivity ]).
Qed.

Lemma update_success_touches_trigger_witness :
  exists s' pre,
    update Scenarios.behind_branch 0 (mkState Samples.site []) = (Next tt, s') /\
    Busy (self s') = false /\
    trace s' = [] ++ pre ++
               [GitReset (target_hash Scenarios.behind_branch 7%N);
                Log Info "Hard reset successful, confirming changes....";
                GitReference "HEAD";
                Log Info "Changes confirmed, latest hash: %v";
                OsChtimes "/srv/site.trigger";
                Log Info "Successfully updated trigger file"] /\
    count is_reset pre = 0%nat /\
    count is_touch pre = 0%nat.
Proof.
  apply (update_success_touches_trigger
           Scenarios.behind_branch 0 (mkState Samples.site []) 0 7%N 9%N).
  - exists 0%nat. split; [lia|reflexivity].
  - reflexivity.
  - reflexivity.
  - reflexivity.
  - split; [intros i Hi; lia|]. left. split; [simpl; lia|reflexivity].
  - reflexivity.
  - reflexivity.
  - discriminate.
  - reflexivity.
  - reflexivity.
  - reflexivity.
  - reflexivity.
Defined.

Lemma zero_passes (w : world) : RetryCount w <= 0 -> fetch_passes w 0.
Proof.
  intros H. split; [intros i Hi; lia|]. right.
  destruct (RetryCount w); try reflexivity. lia.
Qed.

(** With [retry_count] zero or negative [update] fetches nothing and
    still goes on: it resolves the tracked reference and HEAD as they are
    on disk and, when they differ, resets the work tree. *)
Theorem zero_retry_count_still_resets
    (w : world) (fuel : nat) (s : state) (h l : Hash) :
  RetryCount w <= 0 ->
  wait_ends w fuel s ->
  ssh_ok w = true -> open_ok w = true -> worktree_ok w = true ->
  reference_before w (tracked_ref (self s)) = Some h ->
  reference_before w "HEAD" = Some l ->
  l <> h ->
  exists s' pre post,
    update w fuel s = (Next tt, s') /\
    trace s' = trace s ++ pre ++ GitReset (target_hash w h) :: post /\
    count is_fetch pre = 0%nat /\
    count is_fetch post = 0%nat.
Proof.
  intros Hzero Hw Hssh Hopen Hwt Href Hhead Hne.
  pose proof (zero_passes w Hzero) as Hloop.
  destruct (wait_ends_run w fuel s Hw) as (evs1 & Hrun & Hq).
  assert (Hcmp : (h =? l)%N = false) by (apply N.eqb_neq; congruence).
  assert (Hnone : (0 <? Z.to_nat (RetryCount w))%nat = false)
    by (apply Nat.ltb_ge; lia).
  unfold target_hash.
  destruct (tag_object w h) as [t|] eqn:Htag;
    match goal with
    | |- context [GitReset ?c] =>
        destruct (reset_ok w c) eqn:Hreset;
        [destruct (reference_after w c "HEAD") as [hh|] eqn:Hafter;
         [destruct (N.eqb hh c) eqn:Hsame;
          [destruct (HasTrigger (self s)) eqn:Htrig;
           [destruct (chtimes_ok w) eqn:Hch; [|destruct (stat_ok w) eqn:Hstat]|]
          |]|]|]
    end;
    (eexists; exists (evs1 ++ before_reset w (self s) 0 h); eexists;
     split;
     [ unfold update; eapply with_defer_run;
       [to_reset Hrun Hloop; after_reset; reflexivity|discriminate]
     | split;
       [ unfold before_reset, passing_fetches, opening; rewrite Htag, Hnone;
         exec; rewrite <- !app_assoc; cbn [app]; reflexivity
       | unfold before_reset, passing_fetches, opening; rewrite Htag, Hnone;
         cbn [failed_attempts];
         destruct (quiet_counts evs1 Hq) as (Hz & _);
         split; rewrite ?count_app, ?count_cons, ?count_nil, ?Hz; reflexivity ] ]).
Qed.

Lemma zero_retry_count_still_resets_witness :
  exists s' pre post,
    update Scenarios.no_attempts 0 (mkState Samples.site []) = (Next tt, s') /\
    trace s' = [] ++ pre ++ GitReset (target_hash Scenarios.no_attempts 7%N) :: post /\
    count is_fetch pre = 0%nat /\
    count is_fetch post = 0%nat.
Proof.
  apply (zero_retry_count_still_resets
           Scenarios.no_attempts 0 (mkState Samples.site []) 7%N 9%N).
  - simpl. lia.
  - exists 0%nat. split; [lia|reflexivity].
  - reflexivity.
  - reflexivity.
  - reflexivity.
  - reflexivity.
  - reflexivity.
  - discriminate.
Defined.



End PathFacts.
